(** * rustacean-ts: the [Result] type of [src/result/index.ts]

    A shallow embedding of the two classes [Ok] and [Err], the constructor
    functions [ok] and [err], the helper [unwrapFailed] and the free
    function [match], followed by the properties the specification states
    about them.

    The TypeScript code is written against the JavaScript run time: objects
    live in a heap and are handed around by reference, callbacks are
    arbitrary code that may throw or have effects, and [throw] aborts the
    current computation.  The embedding keeps all three: methods are
    computations in a state-and-exception monad over a machine that holds
    the heap, the caller's mutable variables and a journal of the callback
    invocations made by the library. *)

From Stdlib Require Import ZArith String.
From stdpp Require Import base option list strings pretty.

(** ** Values and objects *)

Definition loc := nat.

(** The integers every one of which is a JavaScript number and prints as
    its plain decimal digits: those up to [Number.MAX_SAFE_INTEGER] in
    magnitude. *)
Definition safe_integer (n : Z) : bool :=
  (Z.abs n <=? 9007199254740991)%Z.

(** The JavaScript values that flow through a [Result].  [VInt] is a
    number that is a safe integer.  [VOther] is any other primitive that
    has a string form (a number outside the safe integers such as [1e21],
    [0.5] or [NaN], a bigint), described by what the library can observe
    of it: the string it converts to and whether it counts as true.
    [VSymbol] is a symbol, which has no string form. *)
Inductive Value : Type :=
| VUndefined
| VNull
| VBool (b : bool)
| VInt (n : Z) (safe : safe_integer n = true)
| VStr (s : string)
| VRef (l : loc)
| VOther (shown : string) (truth : bool)
| VSymbol (description : string).

(** The number [n], for a literal [n] within the safe integers. *)
Notation "'VNum' n" := (VInt n eq_refl) (at level 10, n at level 9, only parsing).

(** The number [n] when it is a safe integer. *)
Definition number (n : Z) : option Value :=
  match safe_integer n as b return safe_integer n = b -> option Value with
  | true => fun safe => Some (VInt n safe)
  | false => fun _ => None
  end eq_refl.

Inductive completion (A : Type) : Type :=
| Normal (a : A)
| Thrown (exn : Value).
Arguments Normal {A} a.
Arguments Thrown {A} exn.

(** Heap objects.  [OkObj] and [ErrObj] are the instances of the classes
    [Ok] and [Err] with their single private field; [ErrorObj] is an
    instance of the built-in [Error] (or of a subclass such as [TypeError],
    told apart by [name]).  [PlainObj] is any other object, described by
    what converting it to a string does: [toString] is the caller's code
    that the conversion runs (the object's [toString], [valueOf] or
    [Symbol.toPrimitive]), which reads and may rewrite the caller's
    variables and ends in a string or in a throw; an object without any
    such method (a null-prototype object) has [None]. *)
Inductive obj : Type :=
| OkObj (value : Value)
| ErrObj (error : Value)
| ErrorObj (name message : string)
| PlainObj (toString : option (list Value -> completion string * list Value)).

(** The machine: the heap (objects are never updated after [new], so it
    only grows), the mutable variables of the calling code, and the journal
    of callback invocations performed by the library, oldest first. *)
Record machine : Type := Machine {
  heap : list obj;
  globals : list Value;
  calls : list (string * Value)
}.

(** ** Callbacks

    A callback is caller-supplied code.  Given its argument, the heap and
    the caller's variables it completes normally or throws, may create
    objects and may rewrite the caller's variables.  It cannot touch the
    journal, which is the spy the library's call sites are observed by. *)
Record reaction : Type := Reaction {
  outcome : completion Value;
  fresh : list obj;
  stored : list Value
}.

Record callback : Type := Callback {
  fn_name : string;
  fn_code : Value -> list obj -> list Value -> reaction
}.

(** ** The monad of method bodies *)

Definition M (A : Type) : Type := machine -> completion A * machine.

Definition ret {A} (a : A) : M A := fun m => (Normal a, m).

Definition bind {A B} (c : M A) (k : A -> M B) : M B :=
  fun m =>
    match c m with
    | (Normal a, m') => k a m'
    | (Thrown x, m') => (Thrown x, m')
    end.

Notation "'let*' x ':=' c 'in' k" := (bind c (fun x => k))
  (at level 10, x name, c at level 100, k at level 200).

(** [throw exn] *)
Definition throw {A} (exn : Value) : M A := fun m => (Thrown exn, m).

(** [new C(...)]: the object is placed at the next free location. *)
Definition new (o : obj) : M Value :=
  fun m =>
    (Normal (VRef (length (heap m))),
     {| heap := heap m ++ [o]; globals := globals m; calls := calls m |}).

Definition deref (m : machine) (r : Value) : option obj :=
  match r with
  | VRef l => heap m !! l
  | _ => None
  end.

(** [this.value] and [this.error]: reading a property an object does not
    have gives [undefined]. *)
Definition this_value (this : Value) : M Value :=
  fun m =>
    match deref m this with
    | Some (OkObj v) => (Normal v, m)
    | _ => (Normal VUndefined, m)
    end.

Definition this_error (this : Value) : M Value :=
  fun m =>
    match deref m this with
    | Some (ErrObj e) => (Normal e, m)
    | _ => (Normal VUndefined, m)
    end.

(** [fn(arg)] at a call site of the library: the invocation is journalled,
    then the callback runs. *)
Definition call (fn : callback) (arg : Value) : M Value :=
  fun m =>
    let rx := fn_code fn arg (heap m) (globals m) in
    (outcome rx,
     {| heap := heap m ++ fresh rx;
        globals := stored rx;
        calls := calls m ++ [(fn_name fn, arg)] |}).

(** String conversion as a template literal performs it.  Instances of
    [Ok] and [Err] inherit [Object.prototype.toString]; errors print
    through [Error.prototype.toString]. *)
Definition error_to_string (name message : string) : string :=
  match name, message with
  | EmptyString, _ => message
  | _, EmptyString => name
  | _, _ => name +:+ ": " +:+ message
  end.

(** What converting a value to a string amounts to: the runtime yields
    the string itself, or runs the caller's code, or refuses with a
    [TypeError]. *)
Inductive conversion : Type :=
| Yields (s : string)
| Runs (toString : list Value -> completion string * list Value)
| Refuses (why : string).

Definition to_string (h : list obj) (v : Value) : conversion :=
  match v with
  | VUndefined => Yields "undefined"
  | VNull => Yields "null"
  | VBool true => Yields "true"
  | VBool false => Yields "false"
  | VInt n _ => Yields (pretty n)
  | VStr s => Yields s
  | VOther shown _ => Yields shown
  | VSymbol _ => Refuses "Cannot convert a Symbol value to a string"
  | VRef l =>
      match h !! l with
      | Some (ErrorObj name message) => Yields (error_to_string name message)
      | Some (PlainObj (Some toString)) => Runs toString
      | Some (PlainObj None) => Refuses "Cannot convert object to primitive value"
      | _ => Yields "[object Object]"
      end
  end.

(** [throw new TypeError(why)], as the runtime does it. *)
Definition type_error {A} (why : string) : M A :=
  fun m =>
    (Thrown (VRef (length (heap m))),
     {| heap := heap m ++ [ErrorObj "TypeError" why];
        globals := globals m;
        calls := calls m |}).

(** The conversion a template literal performs on a substituted value. *)
Definition ToString (v : Value) : M string :=
  fun m =>
    match to_string (heap m) v with
    | Yields s => (Normal s, m)
    | Runs toString =>
        let (c, g) := toString (globals m) in
        (c, {| heap := heap m; globals := g; calls := calls m |})
    | Refuses why => type_error why m
    end.

(** The condition of an [if]. *)
Definition truthy (v : Value) : bool :=
  match v with
  | VUndefined | VNull => false
  | VBool b => b
  | VInt n _ => negb (Z.eqb n 0)
  | VStr EmptyString => false
  | VStr _ => true
  | VRef _ => true
  | VOther _ truth => truth
  | VSymbol _ => true
  end.

(** ** The library *)

(** [function ok<T>(value: T): Ok<T> { return new Ok(value); }] *)
Definition ok (value : Value) : M Value := new (OkObj value).

(** [function err<E>(error: E): Err<E> { return new Err(error); }] *)
Definition err (error : Value) : M Value := new (ErrObj error).

(** [function unwrapFailed<E>(msg: string, error: E): never] *)
Definition unwrapFailed (msg : string) (error : Value) : M Value :=
  let* s := ToString error in
  let* e := new (ErrorObj "Error" (msg +:+ ": " +:+ s)) in
  throw e.

(** [class Ok<T>] *)
Module Ok.
Definition val (this : Value) : M Value := this_value this.

Definition isOk (this : Value) : M Value := ret (VBool true).

Definition isOkAnd (this : Value) (fn : callback) : M Value :=
  let* v := this_value this in call fn v.

Definition isErr (this : Value) : M Value := ret (VBool false).

Definition isErrAnd (this : Value) (_ : callback) : M Value :=
  ret (VBool false).

Definition map (this : Value) (fn : callback) : M Value :=
  let* v := this_value this in
  let* u := call fn v in
  ok u.

Definition mapOr (this : Value) (fn : callback) : M Value :=
  let* v := this_value this in call fn v.

Definition mapOrElse (this : Value) (fn : callback) : M Value :=
  let* v := this_value this in call fn v.

Definition mapErr (this : Value) : M Value := ret this.

Definition inspect (this : Value) (fn : callback) : M Value :=
  let* v := this_value this in
  let* _ := call fn v in
  ret this.

Definition inspectErr (this : Value) : M Value := ret this.

Definition expect (this : Value) (_ : string) : M Value := this_value this.

Definition unwrap (this : Value) : M Value := this_value this.

Definition expectErr (this : Value) (msg : string) : M Value :=
  let* v := this_value this in unwrapFailed msg v.

Definition unwrapErr (this : Value) : M Value :=
  let* v := this_value this in
  unwrapFailed "called `Result.unwrapErr()` on an `Ok` value" v.
End Ok.

(** [class Err<E>] *)
Module Err.
Definition val (this : Value) : M Value := this_error this.

Definition isOk (this : Value) : M Value := ret (VBool false).

Definition isOkAnd (this : Value) (_ : callback) : M Value :=
  ret (VBool false).

Definition isErr (this : Value) : M Value := ret (VBool true).

Definition isErrAnd (this : Value) (fn : callback) : M Value :=
  let* e := this_error this in call fn e.

Definition map (this : Value) : M Value := ret this.

Definition mapOr (this : Value) (_ : callback) (defaultValue : Value)
  : M Value := ret defaultValue.

Definition mapOrElse (this : Value) (_ : callback) (defaultFn : callback)
  : M Value :=
  let* e := this_error this in call defaultFn e.

Definition mapErr (this : Value) (fn : callback) : M Value :=
  let* e := this_error this in
  let* u := call fn e in
  err u.

Definition inspect (this : Value) : M Value := ret this.

Definition inspectErr (this : Value) (fn : callback) : M Value :=
  let* e := this_error this in
  let* _ := call fn e in
  ret this.

Definition expect (this : Value) (msg : string) : M Value :=
  let* e := this_error this in unwrapFailed msg e.

Definition unwrap (this : Value) : M Value :=
  let* e := this_error this in throw e.

Definition expectErr (this : Value) (_ : string) : M Value :=
  this_error this.

Definition unwrapErr (this : Value) : M Value := this_error this.
End Err.

(** ** Calls through the union type [Result<T, E> = Ok<T> | Err<E>]

    A caller holds a reference and writes [result.map(f)]; which body runs
    is decided by the class of the object the reference points to. *)

(** What a method call does on a receiver that has no such method. *)
Definition not_a_function (method : string) : M Value :=
  let* e := new (ErrorObj "TypeError" ("result." +:+ method +:+ " is not a function")) in
  throw e.

Definition invoke_method (method : string) (result : Value)
    (onOk onErr : Value -> M Value) : M Value :=
  fun m =>
    match deref m result with
    | Some (OkObj _) => onOk result m
    | Some (ErrObj _) => onErr result m
    | _ => not_a_function method m
    end.

(** What a property read does on a receiver without that accessor:
    [undefined], unless the receiver is [undefined] or [null]. *)
Definition no_such_property (result : Value) : M Value :=
  match result with
  | VUndefined | VNull =>
      let* e := new (ErrorObj "TypeError" "Cannot read properties of undefined") in
      throw e
  | _ => ret VUndefined
  end.

Definition read_accessor (result : Value) (onOk onErr : Value -> M Value)
    : M Value :=
  fun m =>
    match deref m result with
    | Some (OkObj _) => onOk result m
    | Some (ErrObj _) => onErr result m
    | _ => no_such_property result m
    end.

Module Result.
Definition val (result : Value) : M Value :=
  read_accessor result Ok.val Err.val.

Definition isOk (result : Value) : M Value :=
  invoke_method "isOk" result Ok.isOk Err.isOk.

Definition isOkAnd (result : Value) (fn : callback) : M Value :=
  invoke_method "isOkAnd" result
    (fun this => Ok.isOkAnd this fn) (fun this => Err.isOkAnd this fn).

Definition isErr (result : Value) : M Value :=
  invoke_method "isErr" result Ok.isErr Err.isErr.

Definition isErrAnd (result : Value) (fn : callback) : M Value :=
  invoke_method "isErrAnd" result
    (fun this => Ok.isErrAnd this fn) (fun this => Err.isErrAnd this fn).

Definition map (result : Value) (fn : callback) : M Value :=
  invoke_method "map" result
    (fun this => Ok.map this fn) (fun this => Err.map this).

Definition mapOr (result : Value) (fn : callback) (defaultValue : Value)
  : M Value :=
  invoke_method "mapOr" result
    (fun this => Ok.mapOr this fn)
    (fun this => Err.mapOr this fn defaultValue).

Definition mapOrElse (result : Value) (fn defaultFn : callback) : M Value :=
  invoke_method "mapOrElse" result
    (fun this => Ok.mapOrElse this fn)
    (fun this => Err.mapOrElse this fn defaultFn).

Definition mapErr (result : Value) (fn : callback) : M Value :=
  invoke_method "mapErr" result
    (fun this => Ok.mapErr this) (fun this => Err.mapErr this fn).

Definition inspect (result : Value) (fn : callback) : M Value :=
  invoke_method "inspect" result
    (fun this => Ok.inspect this fn) (fun this => Err.inspect this).

Definition inspectErr (result : Value) (fn : callback) : M Value :=
  invoke_method "inspectErr" result
    (fun this => Ok.inspectErr this) (fun this => Err.inspectErr this fn).

Definition expect (result : Value) (msg : string) : M Value :=
  invoke_method "expect" result
    (fun this => Ok.expect this msg) (fun this => Err.expect this msg).

Definition unwrap (result : Value) : M Value :=
  invoke_method "unwrap" result Ok.unwrap Err.unwrap.

Definition expectErr (result : Value) (msg : string) : M Value :=
  invoke_method "expectErr" result
    (fun this => Ok.expectErr this msg) (fun this => Err.expectErr this msg).

Definition unwrapErr (result : Value) : M Value :=
  invoke_method "unwrapErr" result Ok.unwrapErr Err.unwrapErr.
End Result.

(** [function match<T, E, U>(result, okCallback, errorCallback): U] *)
Definition match_ (result : Value) (okCallback errorCallback : callback)
    : M Value :=
  let* b := Result.isOk result in
  if truthy b then
    let* v := Result.val result in call okCallback v
  else
    let* v := Result.val result in call errorCallback v.

(** ** Observing a run *)

Definition start : machine := {| heap := []; globals := []; calls := [] |}.

(** A callback without effects, built from a function on values. *)
Definition pure_fn (name : string) (f : Value -> Value) : callback :=
  {| fn_name := name;
     fn_code := fun v _ g => {| outcome := Normal (f v); fresh := []; stored := g |} |}.

(** The callback [x => g(f(x))]. *)
Definition compose (name : string) (g f : callback) : callback :=
  {| fn_name := name;
     fn_code := fun x h gl =>
       let r1 := fn_code f x h gl in
       match outcome r1 with
       | Thrown _ => r1
       | Normal y =>
           let r2 := fn_code g y (h ++ fresh r1) (stored r1) in
           {| outcome := outcome r2;
              fresh := fresh r1 ++ fresh r2;
              stored := stored r2 |}
       end |}.

(** How often the library has invoked the callback called [name]. *)
Definition call_count (name : string) (m : machine) : nat :=
  length (filter (fun ev => ev.1 = name) (calls m)).

(** [haystack.includes(needle)] *)
Fixpoint includes (needle haystack : string) : bool :=
  String.prefix needle haystack ||
  match haystack with
  | EmptyString => false
  | String _ rest => includes needle rest
  end.

(** The description of a thrown [Error]: the [message] of the object the
    thrown reference points to. *)
Definition description (m : machine) (exn : Value) : option string :=
  match deref m exn with
  | Some (ErrorObj _ message) => Some message
  | _ => None
  end.

(** The description of the failure a run ended in, if it threw an
    [Error]. *)
Definition failure_description (out : completion Value * machine)
    : option string :=
  match out with
  | (Thrown exn, m) => description m exn
  | (Normal _, _) => None
  end.

(** The instance predicates a caller establishes with [isOk] / [isErr]. *)
Definition is_ok (m : machine) (r v : Value) : Prop :=
  deref m r = Some (OkObj v).

Definition is_err (m : machine) (r e : Value) : Prop :=
  deref m r = Some (ErrObj e).

Definition is_result (m : machine) (r : Value) : Prop :=
  exists x, is_ok m r x \/ is_err m r x.

Definition returns {A} (c : M A) (m : machine) : Prop :=
  exists a m', c m = (Normal a, m').

Definition throws {A} (c : M A) (m : machine) : Prop :=
  exists exn m', c m = (Thrown exn, m').

(** The call [fn(arg)], made on machine [m], completes normally. *)
Definition completes (fn : callback) (arg : Value) (m : machine) : Prop :=
  exists u, outcome (fn_code fn arg (heap m) (globals m)) = Normal u.

(** Moving every address from [k] on up by one: what becomes of a value
    when one more object is allocated at [k] before the objects it refers
    to from there on.  Values that are not such references are left as
    they are. *)
Definition relocate (k : loc) (v : Value) : Value :=
  match v with
  | VRef l => if (k <=? l)%nat then VRef (S l) else VRef l
  | _ => v
  end.

Definition relocate_completion (k : loc) (c : completion Value)
    : completion Value :=
  match c with
  | Normal v => Normal (relocate k v)
  | Thrown x => Thrown (relocate k x)
  end.

(** The call [g(u)] on heap [h] does not notice an [Ok] allocated just
    before it: with that one more object in the heap it completes in the
    same way and leaves the same variables, the objects it creates itself
    sitting one address further.  JavaScript code cannot observe addresses
    or enumerate the heap, so this is true of every call a program
    makes. *)
Definition unaware (g : callback) (u : Value) (h : list obj) (gl : list Value)
    : Prop :=
  outcome (fn_code g u (h ++ [OkObj u]) gl)
  = relocate_completion (length h) (outcome (fn_code g u h gl)) /\
  stored (fn_code g u (h ++ [OkObj u]) gl)
  = map (relocate (length h)) (stored (fn_code g u h gl)).


(** What a caller can see of the outcome of an expression of type
    [Result]: on normal completion the answers of [isOk()] and [val],
    together with the caller's variables. *)
Definition observe (out : completion Value * machine)
    : completion (completion Value * completion Value) * list Value :=
  match out with
  | (Normal r, m) =>
      (Normal (fst (Result.isOk r m), fst (Result.val r m)), globals m)
  | (Thrown x, m) => (Thrown x, globals m)
  end.


(** The callbacks of the specification's examples.  [x => x * 2] is typed
    on numbers; twice a safe integer is that integer doubled, a number
    that prints as its plain digits even when it is no longer safe. *)
Definition times2 : callback :=
  pure_fn "x => x * 2"
    (fun x =>
       match x with
       | VInt n _ =>
           match number (n * 2) with
           | Some doubled => doubled
           | None => VOther (pretty (n * 2)%Z) true
           end
       | _ => VUndefined
       end).

Definition minus1 : callback := pure_fn "() => -1" (fun _ => VNum (-1)).

(** The callback [(e: Error) => e.message] of the demonstration script,
    typed on errors: the message of an [Error], a [TypeError] on
    [undefined] and [null], and [undefined] on the values that have no
    such property. *)
Definition message_of : callback :=
  {| fn_name := "e => e.message";
     fn_code := fun e h g =>
       match e with
       | VUndefined | VNull =>
           {| outcome := Thrown (VRef (length h));
              fresh := [ErrorObj "TypeError" "Cannot read properties of undefined"];
              stored := g |}
       | VRef l =>
           {| outcome :=
                match h !! l with
                | Some (ErrorObj _ message) => Normal (VStr message)
                | _ => Normal VUndefined
                end;
              fresh := [];
              stored := g |}
       | _ => {| outcome := Normal VUndefined; fresh := []; stored := g |}
       end |}.

(** The callback [x => ok(x)], which returns an object it creates. *)
Definition boxing : callback :=
  {| fn_name := "x => ok(x)";
     fn_code := fun x h g =>
       {| outcome := Normal (VRef (length h)); fresh := [OkObj x]; stored := g |} |}.

(** A spy that throws as soon as it is invoked. *)
Definition thrower : callback :=
  {| fn_name := "spy";
     fn_code := fun v _ g =>
       {| outcome := Thrown (VStr "invoked"); fresh := []; stored := g |} |}.


(** ** The callers: the demonstration script and the first draft *)

(** The callback [x => x]. *)
Definition identity : callback := pure_fn "x => x" (fun x => x).

(** Code from outside the repository, such as [fs.readFileSync]: it
    behaves like a callback, but it is the script that calls it, not the
    library, so the call is not journalled. *)
Definition external : Type :=
  list Value -> list obj -> list Value -> reaction.

Definition call_external (f : external) (args : list Value) : M Value :=
  fun m =>
    let rx := f args (heap m) (globals m) in
    (outcome rx,
     {| heap := heap m ++ fresh rx;
        globals := stored rx;
        calls := calls m |}).

(** [try { body } catch (error) { handler }] *)
Definition try_catch {A} (body : M A) (handler : Value -> M A) : M A :=
  fun m =>
    match body m with
    | (Normal a, m') => (Normal a, m')
    | (Thrown error, m') => handler error m'
    end.

(** [function myReadFileSync(path): Result<string>] of the demonstration
    script, with [readFileSync] of the [fs] module as a parameter. *)
Definition myReadFileSync (readFileSync : external) (path : Value)
    : M Value :=
  try_catch
    (let* data := call_external readFileSync [path; VStr "utf-8"] in
     ok data)
    (fun error => err error).

(** The end of the demonstration script, for the [result] it read:
    [result.expect(...)] followed by
    [if (result.isErr()) { result.expect(...) }]. *)
Definition script_end (result : Value) : M Value :=
  let* _ := Result.expect result "=======failed to read file=====" in
  let* b := Result.isErr result in
  if truthy b then
    let* _ := Result.expect result
                "this returns nothing and throws an error (never)" in
    ret VUndefined
  else ret VUndefined.

(** The first draft of the library: two classes with [is_ok], [is_err]
    and [unwrap], the accessor [val] on [Ok] only and [err] on [Err] only,
    and [match]. *)
Module Draft.

Module Ok.
Definition val (this : Value) : M Value := this_value this.

Definition is_ok (this : Value) : M Value := ret (VBool true).

Definition is_err (this : Value) : M Value := ret (VBool false).

Definition unwrap (this : Value) : M Value := this_value this.
End Ok.

Definition ok (value : Value) : M Value := new (OkObj value).

Module Err.
Definition err (this : Value) : M Value := this_error this.

Definition is_ok (this : Value) : M Value := ret (VBool false).

Definition is_err (this : Value) : M Value := ret (VBool true).

Definition unwrap (this : Value) : M Value :=
  let* e := this_error this in throw e.
End Err.

Definition err (error : Value) : M Value := new (ErrObj error).

Module Result.
Definition val (result : Value) : M Value :=
  read_accessor result Ok.val no_such_property.

Definition err (result : Value) : M Value :=
  read_accessor result no_such_property Err.err.

Definition is_ok (result : Value) : M Value :=
  invoke_method "is_ok" result Ok.is_ok Err.is_ok.

Definition is_err (result : Value) : M Value :=
  invoke_method "is_err" result Ok.is_err Err.is_err.

Definition unwrap (result : Value) : M Value :=
  invoke_method "unwrap" result Ok.unwrap Err.unwrap.
End Result.

Definition match_ (result : Value) (okCallback errorCallback : callback)
    : M Value :=
  let* b := Result.is_ok result in
  if truthy b then
    let* v := Result.val result in call okCallback v
  else
    let* e := Result.err result in call errorCallback e.

End Draft.

(** ** Running the primitives *)

Lemma bind_normal {A B} (c : M A) (k : A -> M B) m a m' :
  c m = (Normal a, m') -> bind c k m = k a m'.
Proof. intros H. unfold bind. now rewrite H. Qed.

Lemma bind_thrown {A B} (c : M A) (k : A -> M B) m x m' :
  c m = (Thrown x, m') -> bind c k m = (Thrown x, m').
Proof. intros H. unfold bind. now rewrite H. Qed.

Lemma deref_new m o :
  deref (snd (new o m)) (VRef (length (heap m))) = Some o.
Proof. simpl. now apply list_lookup_middle. Qed.

Lemma deref_grow m r o h g c :
  deref m r = Some o ->
  deref {| heap := heap m ++ h; globals := g; calls := c |} r = Some o.
Proof.
  destruct r; simpl; try discriminate.
  intros H. now apply lookup_app_l_Some.
Qed.

Lemma this_value_ok m r v : is_ok m r v -> this_value r m = (Normal v, m).
Proof. unfold is_ok, this_value. now intros ->. Qed.

Lemma this_error_err m r e : is_err m r e -> this_error r m = (Normal e, m).
Proof. unfold is_err, this_error. now intros ->. Qed.

Lemma invoke_method_ok name m r v f g :
  is_ok m r v -> invoke_method name r f g m = f r m.
Proof. unfold is_ok, invoke_method. now intros ->. Qed.

Lemma invoke_method_err name m r e f g :
  is_err m r e -> invoke_method name r f g m = g r m.
Proof. unfold is_err, invoke_method. now intros ->. Qed.

Lemma read_accessor_ok m r v f g :
  is_ok m r v -> read_accessor r f g m = f r m.
Proof. unfold is_ok, read_accessor. now intros ->. Qed.

Lemma read_accessor_err m r e f g :
  is_err m r e -> read_accessor r f g m = g r m.
Proof. unfold is_err, read_accessor. now intros ->. Qed.

Lemma ok_is_ok m v : is_ok (snd (ok v m)) (VRef (length (heap m))) v.
Proof. apply deref_new. Qed.

Lemma err_is_err m e : is_err (snd (err e m)) (VRef (length (heap m))) e.
Proof. apply deref_new. Qed.

Lemma ok_then {B} (k : Value -> M B) m v :
  bind (ok v) k m = k (VRef (length (heap m))) (snd (ok v m)).
Proof. reflexivity. Qed.

Lemma err_then {B} (k : Value -> M B) m e :
  bind (err e) k m = k (VRef (length (heap m))) (snd (err e m)).
Proof. reflexivity. Qed.

Create HintDb result discriminated.
Create Rewrite HintDb fresh_receiver.
#[local] Hint Resolve ok_is_ok err_is_err : result.
#[local] Hint Rewrite @ok_then @err_then : fresh_receiver.

(** Resolve a method call or a field read on a receiver whose class is
    known from a hypothesis. *)
Ltac receiver H :=
  first
    [ rewrite (invoke_method_ok _ _ _ _ _ _ H)
    | rewrite (invoke_method_err _ _ _ _ _ _ H)
    | rewrite (read_accessor_ok _ _ _ _ _ H)
    | rewrite (read_accessor_err _ _ _ _ _ H)
    | rewrite (this_value_ok _ _ _ H)
    | rewrite (this_error_err _ _ _ H) ].

(** ** C1: constructors and queries *)

Example ok_2_isOk :
  fst ((let* r := ok (VNum 2) in Result.isOk r) start) = Normal (VBool true).
Proof. reflexivity. Qed.

(** C1.  For every value [v], [ok(v).isOk()] is [true], [ok(v).isErr()] is
    [false] and [ok(v).val] is [v]; for every error [e], [err(e).isOk()] is
    [false], [err(e).isErr()] is [true] and [err(e).val] is [e].  Each
    query leaves the machine as the constructor left it. *)
Theorem constructors_queries (m : machine) (v e : Value) :
  (let* r := ok v in Result.isOk r) m = (Normal (VBool true), snd (ok v m)) /\
  (let* r := ok v in Result.isErr r) m = (Normal (VBool false), snd (ok v m)) /\
  (let* r := ok v in Result.val r) m = (Normal v, snd (ok v m)) /\
  (let* r := err e in Result.isOk r) m = (Normal (VBool false), snd (err e m)) /\
  (let* r := err e in Result.isErr r) m = (Normal (VBool true), snd (err e m)) /\
  (let* r := err e in Result.val r) m = (Normal e, snd (err e m)).
Proof.
  pose proof (ok_is_ok m v) as Hok.
  pose proof (err_is_err m e) as Herr.
  autorewrite with fresh_receiver.
  unfold Result.isOk, Result.isErr, Result.val.
  repeat split.
  - now receiver Hok.
  - now receiver Hok.
  - receiver Hok. unfold Ok.val. now receiver Hok.
  - now receiver Herr.
  - now receiver Herr.
  - receiver Herr. unfold Err.val. now receiver Herr.
Qed.

(** ** C2, C3, C4: extraction *)

Lemma unwrap_ok m r v : is_ok m r v -> Result.unwrap r m = (Normal v, m).
Proof.
  intros H. unfold Result.unwrap. receiver H. unfold Ok.unwrap. now receiver H.
Qed.

Lemma unwrap_err m r e : is_err m r e -> Result.unwrap r m = (Thrown e, m).
Proof.
  intros H. unfold Result.unwrap. receiver H. unfold Err.unwrap.
  now rewrite (bind_normal _ _ _ _ _ (this_error_err _ _ _ H)).
Qed.

(** C2.  [ok(v).unwrap()] returns [v]; [err(e).unwrap()] throws, and what
    is thrown is [e] itself: no [Error] object is created around it, the
    heap holds nothing but the [Err] instance. *)
Theorem unwrap_returns_or_throws_error (m : machine) (v e : Value) :
  (let* r := ok v in Result.unwrap r) m = (Normal v, snd (ok v m)) /\
  (let* r := err e in Result.unwrap r) m = (Thrown e, snd (err e m)).
Proof.
  autorewrite with fresh_receiver. split.
  - apply unwrap_ok; auto with result.
  - apply unwrap_err; auto with result.
Qed.


(** The run of [unwrapFailed] when the conversion yields a string: one
    [Error] is allocated and thrown. *)
Lemma unwrapFailed_run msg error m s m' :
  ToString error m = (Normal s, m') ->
  unwrapFailed msg error m =
  (Thrown (VRef (length (heap m'))),
   {| heap := heap m' ++ [ErrorObj "Error" (msg +:+ ": " +:+ s)];
      globals := globals m';
      calls := calls m' |}).
Proof. intros H. unfold unwrapFailed, bind. now rewrite H. Qed.

(** The run of [unwrapFailed] when the conversion throws: that throw is
    the outcome, no [Error] is built. *)
Lemma unwrapFailed_conversion_throws msg error m x m' :
  ToString error m = (Thrown x, m') ->
  unwrapFailed msg error m = (Thrown x, m').
Proof. intros H. unfold unwrapFailed, bind. now rewrite H. Qed.

Lemma unwrapFailed_description msg error m s m' :
  ToString error m = (Normal s, m') ->
  failure_description (unwrapFailed msg error m)
  = Some (msg +:+ ": " +:+ s).
Proof.
  intros H. rewrite (unwrapFailed_run _ _ _ _ _ H).
  unfold failure_description, description. simpl.
  now rewrite list_lookup_middle.
Qed.

(** [unwrapFailed] has return type [never]: it throws whatever the
    conversion does. *)
Lemma unwrapFailed_throws msg error m :
  exists x m', unwrapFailed msg error m = (Thrown x, m').
Proof.
  destruct (ToString error m) as [[s|x] m'] eqn:H.
  - rewrite (unwrapFailed_run _ _ _ _ _ H). eauto.
  - rewrite (unwrapFailed_conversion_throws _ _ _ _ _ H). eauto.
Qed.

Lemma unwrapFailed_never_returns msg error m a m' :
  unwrapFailed msg error m <> (Normal a, m').
Proof.
  destruct (unwrapFailed_throws msg error m) as (x & m'' & ->). discriminate.
Qed.

Lemma unwrapErr_err m r e : is_err m r e -> Result.unwrapErr r m = (Normal e, m).
Proof.
  intros H. unfold Result.unwrapErr. receiver H. unfold Err.unwrapErr.
  now receiver H.
Qed.

Lemma unwrapErr_ok m r v :
  is_ok m r v ->
  Result.unwrapErr r m =
  unwrapFailed "called `Result.unwrapErr()` on an `Ok` value" v m.
Proof.
  intros H. unfold Result.unwrapErr. receiver H. unfold Ok.unwrapErr.
  now rewrite (bind_normal _ _ _ _ _ (this_value_ok _ _ _ H)).
Qed.

Lemma expect_ok m r v msg : is_ok m r v -> Result.expect r msg m = (Normal v, m).
Proof.
  intros H. unfold Result.expect. receiver H. unfold Ok.expect. now receiver H.
Qed.

Lemma expect_err m r e msg :
  is_err m r e -> Result.expect r msg m = unwrapFailed msg e m.
Proof.
  intros H. unfold Result.expect. receiver H. unfold Err.expect.
  now rewrite (bind_normal _ _ _ _ _ (this_error_err _ _ _ H)).
Qed.

Lemma expectErr_err m r e msg :
  is_err m r e -> Result.expectErr r msg m = (Normal e, m).
Proof.
  intros H. unfold Result.expectErr. receiver H. unfold Err.expectErr.
  now receiver H.
Qed.

Lemma expectErr_ok m r v msg :
  is_ok m r v -> Result.expectErr r msg m = unwrapFailed msg v m.
Proof.
  intros H. unfold Result.expectErr. receiver H. unfold Ok.expectErr.
  now rewrite (bind_normal _ _ _ _ _ (this_value_ok _ _ _ H)).
Qed.

(** The description the specification quotes is not the one the code
    builds: [ok(2).unwrapErr()] throws an [Error] whose message is
    [called `Result.unwrapErr()` on an `Ok` value: 2], which does not even
    start with the quoted text.  And on a value without a string form,
    such as a symbol, what is thrown is the [TypeError] of the
    conversion. *)
Lemma unwrapErr_description_not_as_quoted :
  failure_description ((let* r := ok (VNum 2) in Result.unwrapErr r) start)
  = Some "called `Result.unwrapErr()` on an `Ok` value: 2" /\
  (~ exists suffix,
      failure_description ((let* r := ok (VNum 2) in Result.unwrapErr r) start)
      = Some ("called unwrapErr() on an Ok value" +:+ suffix)) /\
  failure_description
    ((let* r := ok (VSymbol "sym") in Result.unwrapErr r) start)
  = Some "Cannot convert a Symbol value to a string".
Proof.
  split; [reflexivity|]. split; [|reflexivity].
  intros [suffix H]. vm_compute in H. discriminate H.
Qed.

Example unwrapErr_large_number :
  failure_description
    ((let* r := ok (VOther "1e+21" true) in Result.unwrapErr r) start)
  = Some "called `Result.unwrapErr()` on an `Ok` value: 1e+21".
Proof. reflexivity. Qed.

(** C3 (amended).  [err(e).unwrapErr()] returns [e].  [ok(v).unwrapErr()]
    always throws.  When the conversion of [v] to a string yields [s], what
    is thrown is a freshly created [Error] whose message is
    [called `Result.unwrapErr()` on an `Ok` value], a colon and a space,
    and [s]; when the conversion itself throws (a symbol, an object whose
    own [toString] throws), that throw is the outcome. *)
Theorem unwrapErr_returns_or_fails (m : machine) (v e : Value) :
  (let* r := err e in Result.unwrapErr r) m = (Normal e, snd (err e m)) /\
  throws (let* r := ok v in Result.unwrapErr r) m /\
  match ToString v (snd (ok v m)) with
  | (Normal s, _) =>
      failure_description ((let* r := ok v in Result.unwrapErr r) m)
      = Some ("called `Result.unwrapErr()` on an `Ok` value: " +:+ s)
  | (Thrown x, m') =>
      (let* r := ok v in Result.unwrapErr r) m = (Thrown x, m')
  end.
Proof.
  unfold throws. autorewrite with fresh_receiver. split; [|split].
  - apply unwrapErr_err; auto with result.
  - rewrite (unwrapErr_ok _ _ v) by auto with result.
    apply unwrapFailed_throws.
  - rewrite (unwrapErr_ok _ _ v) by auto with result.
    destruct (ToString v (snd (ok v m))) as [[s|x] m'] eqn:H.
    + now rewrite (unwrapFailed_description _ _ _ _ _ H).
    + now apply unwrapFailed_conversion_throws.
Qed.

(** [includes] finds a needle wherever it sits in the haystack. *)
Lemma prefix_app (s t : string) : String.prefix s (s +:+ t) = true.
Proof.
  induction s as [|a s IH]; simpl.
  - now destruct t.
  - destruct (Ascii.ascii_dec a a) as [_|Hne]; [exact IH | now destruct Hne].
Qed.

Lemma includes_unfold (needle haystack : string) :
  includes needle haystack =
  String.prefix needle haystack ||
  match haystack with
  | EmptyString => false
  | String _ rest => includes needle rest
  end.
Proof. now destruct haystack. Qed.

Lemma includes_prefix (needle rest : string) :
  includes needle (needle +:+ rest) = true.
Proof. rewrite includes_unfold, prefix_app. reflexivity. Qed.

Lemma includes_skip (needle skipped haystack : string) :
  includes needle haystack = true ->
  includes needle (skipped +:+ haystack) = true.
Proof.
  intros H. induction skipped as [|a skipped IH]; simpl; [exact H|].
  rewrite IH. apply orb_true_r.
Qed.

Lemma includes_suffix (needle skipped : string) :
  includes needle (skipped +:+ needle) = true.
Proof.
  apply includes_skip. rewrite includes_unfold.
  replace (String.prefix needle needle) with true; [reflexivity|].
  symmetry. induction needle as [|a s IH]; simpl; [reflexivity|].
  destruct (Ascii.ascii_dec a a) as [_|Hne]; [exact IH | now destruct Hne].
Qed.

Example expect_ctx_boom :
  failure_description
    ((let* r := err (VStr "boom") in Result.expect r "ctx") start)
  = Some "ctx: boom".
Proof. reflexivity. Qed.

Example expect_large_number :
  failure_description
    ((let* r := err (VOther "1e+21" true) in Result.expect r "ctx") start)
  = Some "ctx: 1e+21".
Proof. reflexivity. Qed.



(** ** What each operation does on each class

    The table of the transformation and query operations, for a receiver
    that is already in the heap. *)

Ltac by_class H :=
  unfold is_ok, is_err in H;
  unfold Result.val, Result.isOk, Result.isOkAnd, Result.isErr,
    Result.isErrAnd, Result.map, Result.mapOr, Result.mapOrElse,
    Result.mapErr, Result.inspect, Result.inspectErr,
    invoke_method, read_accessor;
  rewrite H;
  unfold Ok.val, Ok.isOk, Ok.isOkAnd, Ok.isErr, Ok.isErrAnd, Ok.map,
    Ok.mapOr, Ok.mapOrElse, Ok.mapErr, Ok.inspect, Ok.inspectErr,
    Err.val, Err.isOk, Err.isOkAnd, Err.isErr, Err.isErrAnd, Err.map,
    Err.mapOr, Err.mapOrElse, Err.mapErr, Err.inspect, Err.inspectErr,
    bind, this_value, this_error, ret;
  rewrite ?H; reflexivity.

Section OnOk.
Variables (m : machine) (r v : Value).
Hypothesis H : is_ok m r v.

Lemma val_ok : Result.val r m = (Normal v, m).
Proof. by_class H. Qed.

Lemma isOk_ok : Result.isOk r m = (Normal (VBool true), m).
Proof. by_class H. Qed.

Lemma isErr_ok : Result.isErr r m = (Normal (VBool false), m).
Proof. by_class H. Qed.

Lemma isOkAnd_ok fn : Result.isOkAnd r fn m = call fn v m.
Proof. by_class H. Qed.

Lemma isErrAnd_ok fn : Result.isErrAnd r fn m = (Normal (VBool false), m).
Proof. by_class H. Qed.

Lemma map_ok fn : Result.map r fn m = (let* u := call fn v in ok u) m.
Proof. by_class H. Qed.

Lemma mapOr_ok fn d : Result.mapOr r fn d m = call fn v m.
Proof. by_class H. Qed.

Lemma mapOrElse_ok fn defaultFn :
  Result.mapOrElse r fn defaultFn m = call fn v m.
Proof. by_class H. Qed.

Lemma mapErr_ok fn : Result.mapErr r fn m = (Normal r, m).
Proof. by_class H. Qed.

Lemma inspect_ok fn :
  Result.inspect r fn m = (let* _ := call fn v in ret r) m.
Proof. by_class H. Qed.

Lemma inspectErr_ok fn : Result.inspectErr r fn m = (Normal r, m).
Proof. by_class H. Qed.
End OnOk.

Section OnErr.
Variables (m : machine) (r e : Value).
Hypothesis H : is_err m r e.

Lemma val_err : Result.val r m = (Normal e, m).
Proof. by_class H. Qed.

Lemma isOk_err : Result.isOk r m = (Normal (VBool false), m).
Proof. by_class H. Qed.

Lemma isErr_err : Result.isErr r m = (Normal (VBool true), m).
Proof. by_class H. Qed.

Lemma isOkAnd_err fn : Result.isOkAnd r fn m = (Normal (VBool false), m).
Proof. by_class H. Qed.

Lemma isErrAnd_err fn : Result.isErrAnd r fn m = call fn e m.
Proof. by_class H. Qed.

Lemma map_err fn : Result.map r fn m = (Normal r, m).
Proof. by_class H. Qed.

Lemma mapOr_err fn d : Result.mapOr r fn d m = (Normal d, m).
Proof. by_class H. Qed.

Lemma mapOrElse_err fn defaultFn :
  Result.mapOrElse r fn defaultFn m = call defaultFn e m.
Proof. by_class H. Qed.

Lemma mapErr_err fn : Result.mapErr r fn m = (let* u := call fn e in err u) m.
Proof. by_class H. Qed.

Lemma inspect_err fn : Result.inspect r fn m = (Normal r, m).
Proof. by_class H. Qed.

Lemma inspectErr_err fn :
  Result.inspectErr r fn m = (let* _ := call fn e in ret r) m.
Proof. by_class H. Qed.
End OnErr.

(** [match] is the call of the callback that belongs to the variant. *)
Lemma match_ok m r v okCallback errorCallback :
  is_ok m r v -> match_ r okCallback errorCallback m = call okCallback v m.
Proof.
  intros H. unfold match_, bind.
  rewrite (isOk_ok _ _ _ H).
  change (truthy (VBool true)) with true. cbv beta iota.
  now rewrite (val_ok _ _ _ H).
Qed.

Lemma match_err m r e okCallback errorCallback :
  is_err m r e -> match_ r okCallback errorCallback m = call errorCallback e m.
Proof.
  intros H. unfold match_, bind.
  rewrite (isOk_err _ _ _ H).
  change (truthy (VBool false)) with false. cbv beta iota.
  now rewrite (val_err _ _ _ H).
Qed.

(** ** C5: where the library throws *)

Lemma call_returns fn arg m : completes fn arg m -> returns (call fn arg) m.
Proof.
  intros [u Hu]. unfold returns, call. rewrite Hu. eauto.
Qed.

Lemma returns_bind {A B} (c : M A) (k : A -> M B) m :
  returns c m -> (forall a m', returns (k a) m') -> returns (bind c k) m.
Proof.
  intros (a & m' & Hc) Hk. unfold returns.
  rewrite (bind_normal _ _ _ _ _ Hc). apply Hk.
Qed.

Lemma returns_now {A} (c : M A) m a m' : c m = (Normal a, m') -> returns c m.
Proof. unfold returns. eauto. Qed.

Lemma throws_unwrapFailed msg error m : throws (unwrapFailed msg error) m.
Proof. apply unwrapFailed_throws. Qed.

Lemma throws_as {A} (c c' : M A) m : c m = c' m -> throws c' m -> throws c m.
Proof. unfold throws. now intros ->. Qed.

Lemma returns_call_then {B} fn arg (k : Value -> M B) m :
  completes fn arg m -> (forall a m', returns (k a) m') ->
  returns (let* a := call fn arg in k a) m.
Proof. intros Hc Hk. apply returns_bind; [now apply call_returns | exact Hk]. Qed.

(** C5.  On a [Result] the three plain queries always return.  Every
    other query and transformation, and [match], returns as soon as the
    one call it makes to a callback completes normally, and returns
    unconditionally where it makes none.  The extraction that matches the
    variant returns; the only operations that throw of themselves are
    [unwrapErr] / [expectErr] on an [Ok] and [unwrap] / [expect] on an
    [Err]. *)
Theorem only_mismatched_extraction_throws
    (m : machine) (r : Value) (f g : callback) (d : Value) (msg : string) :
  is_result m r ->
  (returns (Result.val r) m /\
   returns (Result.isOk r) m /\
   returns (Result.isErr r) m) /\
  (forall v, is_ok m r v ->
     (returns (Result.isErrAnd r f) m /\
      returns (Result.mapErr r f) m /\
      returns (Result.inspectErr r f) m) /\
     (completes f v m ->
      returns (Result.isOkAnd r f) m /\
      returns (Result.map r f) m /\
      returns (Result.mapOr r f d) m /\
      returns (Result.mapOrElse r f g) m /\
      returns (Result.inspect r f) m /\
      returns (match_ r f g) m) /\
     (returns (Result.unwrap r) m /\ returns (Result.expect r msg) m /\
      throws (Result.unwrapErr r) m /\ throws (Result.expectErr r msg) m)) /\
  (forall e, is_err m r e ->
     (returns (Result.isOkAnd r f) m /\
      returns (Result.map r f) m /\
      returns (Result.mapOr r f d) m /\
      returns (Result.inspect r f) m) /\
     (completes f e m ->
      returns (Result.isErrAnd r f) m /\
      returns (Result.mapErr r f) m /\
      returns (Result.inspectErr r f) m) /\
     (completes g e m ->
      returns (Result.mapOrElse r f g) m /\
      returns (match_ r f g) m) /\
     (returns (Result.unwrapErr r) m /\ returns (Result.expectErr r msg) m /\
      throws (Result.unwrap r) m /\ throws (Result.expect r msg) m)).
Proof.
  intros Hr. split; [|split].
  - destruct Hr as [x [H|H]]; split; [|split| |split].
    + eapply returns_now, val_ok, H.
    + eapply returns_now, isOk_ok, H.
    + eapply returns_now, isErr_ok, H.
    + eapply returns_now, val_err, H.
    + eapply returns_now, isOk_err, H.
    + eapply returns_now, isErr_err, H.
  - intros v H. split; [|split].
    + split; [|split].
      * eapply returns_now, isErrAnd_ok, H.
      * eapply returns_now, mapErr_ok, H.
      * eapply returns_now, inspectErr_ok, H.
    + intros Hf. unfold returns.
      rewrite (isOkAnd_ok _ _ _ H), (map_ok _ _ _ H), (mapOr_ok _ _ _ H),
        (mapOrElse_ok _ _ _ H), (inspect_ok _ _ _ H), (match_ok _ _ _ _ _ H).
      pose proof (call_returns _ _ _ Hf) as Hcall.
      split; [exact Hcall|]. split.
      { apply returns_call_then; [exact Hf|].
        intros a m'. eapply returns_now. reflexivity. }
      split; [exact Hcall|]. split; [exact Hcall|]. split; [|exact Hcall].
      apply returns_call_then; [exact Hf|].
      intros a m'. eapply returns_now. reflexivity.
    + split; [|split; [|split]].
      * eapply returns_now, unwrap_ok, H.
      * eapply returns_now, expect_ok, H.
      * eapply throws_as; [apply unwrapErr_ok, H | apply throws_unwrapFailed].
      * eapply throws_as; [apply expectErr_ok, H | apply throws_unwrapFailed].
  - intros e H. split; [|split; [|split]].
    + split; [|split; [|split]].
      * eapply returns_now, isOkAnd_err, H.
      * eapply returns_now, map_err, H.
      * eapply returns_now, mapOr_err, H.
      * eapply returns_now, inspect_err, H.
    + intros Hf. unfold returns.
      rewrite (isErrAnd_err _ _ _ H), (mapErr_err _ _ _ H),
        (inspectErr_err _ _ _ H).
      split; [now apply call_returns|]. split.
      * apply returns_call_then; [exact Hf|].
        intros a m'. eapply returns_now. reflexivity.
      * apply returns_call_then; [exact Hf|].
        intros a m'. eapply returns_now. reflexivity.
    + intros Hg. unfold returns.
      rewrite (mapOrElse_err _ _ _ H), (match_err _ _ _ _ _ H).
      split; now apply call_returns.
    + split; [|split; [|split]].
      * eapply returns_now, unwrapErr_err, H.
      * eapply returns_now, expectErr_err, H.
      * unfold throws. rewrite (unwrap_err _ _ _ H). eauto.
      * eapply throws_as; [apply expect_err, H | apply throws_unwrapFailed].
Qed.

Lemma only_mismatched_extraction_throws_witness :
  let m := snd (err (VRef 0)
             (snd (ok (VRef 0)
                (snd (new (ErrorObj "Error" "disk") start))))) in
  (is_result m (VRef 1) /\ is_ok m (VRef 1) (VRef 0) /\
   completes message_of (VRef 0) m /\
   ~ completes message_of VUndefined m) /\
  (returns (Result.map (VRef 1) message_of) m /\
   returns (match_ (VRef 1) message_of thrower) m /\
   returns (Result.unwrap (VRef 1)) m /\
   throws (Result.unwrapErr (VRef 1)) m) /\
  (is_result m (VRef 2) /\ is_err m (VRef 2) (VRef 0) /\
   returns (Result.map (VRef 2) thrower) m /\
   returns (Result.mapErr (VRef 2) message_of) m /\
   returns (Result.mapOrElse (VRef 2) thrower message_of) m /\
   returns (Result.unwrapErr (VRef 2)) m /\
   throws (Result.unwrap (VRef 2)) m).
Proof.
  intros m.
  assert (Ho : is_ok m (VRef 1) (VRef 0)) by reflexivity.
  assert (He : is_err m (VRef 2) (VRef 0)) by reflexivity.
  assert (Hr1 : is_result m (VRef 1)) by (exists (VRef 0); left; exact Ho).
  assert (Hr2 : is_result m (VRef 2)) by (exists (VRef 0); right; exact He).
  assert (Hc : completes message_of (VRef 0) m) by (eexists; reflexivity).
  assert (Hn : ~ completes message_of VUndefined m)
    by (intros [u Hu]; discriminate Hu).
  destruct (only_mismatched_extraction_throws m (VRef 1) message_of thrower
              (VInt 0 eq_refl) "ctx" Hr1) as (_ & Hok & _).
  destruct (Hok _ Ho)
    as (_ & Hcalls & Hunwrap & _ & HunwrapErr & _).
  destruct (Hcalls Hc) as (_ & Hmap & _ & _ & _ & Hmatch).
  destruct (only_mismatched_extraction_throws m (VRef 2) thrower message_of
              (VInt 0 eq_refl) "ctx" Hr2) as (_ & _ & Herr).
  destruct (Herr _ He)
    as ((_ & Hmap' & _) & _ & Hfallback & HunwrapErr' & _ & Hunwrap' & _).
  destruct (Hfallback Hc) as (Helse & _).
  destruct (only_mismatched_extraction_throws m (VRef 2) message_of thrower
              (VInt 0 eq_refl) "ctx" Hr2) as (_ & _ & Herr2).
  destruct (Herr2 _ He) as (_ & Hcalls2 & _).
  destruct (Hcalls2 Hc) as (_ & HmapErr & _).
  split; [|split].
  - split; [exact Hr1|]. split; [exact Ho|]. split; [exact Hc|]. exact Hn.
  - split; [exact Hmap|]. split; [exact Hmatch|]. split; [exact Hunwrap|].
    exact HunwrapErr.
  - split; [exact Hr2|]. split; [exact He|]. split; [exact Hmap'|].
    split; [exact HmapErr|]. split; [exact Helse|].
    split; [exact HunwrapErr'|]. exact Hunwrap'.
Defined.

(** ** C6: [map] *)

Lemma calls_call fn arg m :
  calls (snd (call fn arg m)) = calls m ++ [(fn_name fn, arg)].
Proof. reflexivity. Qed.

(** The run of [map] on an [Ok], spelled out. *)
Lemma map_ok_run m r v fn :
  is_ok m r v ->
  let rx := fn_code fn v (heap m) (globals m) in
  Result.map r fn m =
  match outcome rx with
  | Normal u =>
      (Normal (VRef (length (heap m ++ fresh rx))),
       {| heap := (heap m ++ fresh rx) ++ [OkObj u];
          globals := stored rx;
          calls := calls m ++ [(fn_name fn, v)] |})
  | Thrown x =>
      (Thrown x,
       {| heap := heap m ++ fresh rx;
          globals := stored rx;
          calls := calls m ++ [(fn_name fn, v)] |})
  end.
Proof.
  intros H rx. rewrite (map_ok _ _ _ H).
  unfold bind, call. fold rx. now destruct (outcome rx).
Qed.

Lemma is_ok_last h u g c :
  is_ok {| heap := h ++ [OkObj u]; globals := g; calls := c |}
        (VRef (length h)) u.
Proof. unfold is_ok, deref. simpl. now apply list_lookup_middle. Qed.

Example map_ok_times2 :
  fst ((let* r := ok (VNum 21) in
        let* r' := Result.map r times2 in
        Result.val r') start) = Normal (VNum 42).
Proof. reflexivity. Qed.

Example map_err_spy_untouched :
  (let* r := err (VStr "boom") in Result.map r thrower) start =
  (Normal (VRef 0),
   {| heap := [ErrObj (VStr "boom")]; globals := []; calls := [] |}).
Proof. reflexivity. Qed.

(** C6.  [ok(v).map(f)] is an [Ok] that holds what [f(v)] returned, so its
    [val] is the completion of [f] on [v] (and [f] was invoked once, with
    [v]).  [err(e).map(f)] is the [Err] itself, its [val] is [e], and the
    journal of invocations is as it was: [f] has not been called. *)
Theorem map_applies_on_ok_only (m : machine) (v e : Value) (f : callback) :
  (let fv := fn_code f v (heap m ++ [OkObj v]) (globals m) in
   fst ((let* r := ok v in
         let* r' := Result.map r f in
         Result.val r') m) = outcome fv /\
   fst ((let* r := ok v in
         let* r' := Result.map r f in
         Result.isOk r') m)
   = match outcome fv with
     | Normal _ => Normal (VBool true)
     | Thrown x => Thrown x
     end /\
   calls (snd ((let* r := ok v in Result.map r f) m))
   = calls m ++ [(fn_name f, v)]) /\
  ((let* r := err e in Result.map r f) m = err e m /\
   (let* r := err e in
    let* r' := Result.map r f in
    Result.val r') m = (Normal e, snd (err e m)) /\
   calls (snd ((let* r := err e in Result.map r f) m)) = calls m /\
   call_count (fn_name f) (snd ((let* r := err e in Result.map r f) m))
   = call_count (fn_name f) m).
Proof.
  pose proof (ok_is_ok m v) as Hok.
  pose proof (err_is_err m e) as Herr.
  split.
  - cbv zeta. autorewrite with fresh_receiver.
    unfold bind. rewrite (map_ok_run _ _ _ f Hok). cbv zeta.
    change (heap (snd (ok v m))) with (heap m ++ [OkObj v]).
    change (globals (snd (ok v m))) with (globals m).
    destruct (outcome (fn_code f v (heap m ++ [OkObj v]) (globals m)))
      as [u|x]; [|repeat split].
    rewrite (val_ok _ _ u), (isOk_ok _ _ u) by apply is_ok_last.
    repeat split.
  - autorewrite with fresh_receiver.
    unfold bind. rewrite (map_err _ _ _ Herr).
    rewrite (val_err _ _ _ Herr). repeat split.
Qed.

(** ** C7: composition of [map] *)

Lemma observe_ok_last (r : Value) h u g c :
  r = VRef (length h) ->
  observe (Normal r, {| heap := h ++ [OkObj u]; globals := g; calls := c |})
  = (Normal (Normal (VBool true), Normal u), g).
Proof.
  intros ->. unfold observe.
  now rewrite (isOk_ok _ _ u), (val_ok _ _ u) by apply is_ok_last.
Qed.

Example map_twice_ok :
  observe ((let* r := ok (VNum 5) in
            let* r1 := Result.map r times2 in
            Result.map r1 times2) start)
  = (Normal (Normal (VBool true), Normal (VNum 20)), []).
Proof. reflexivity. Qed.



(** Callbacks of the usual kinds do not notice the intermediate [Ok], as
    long as the caller's variables hold no reference to an address that
    is still free. *)
Lemma relocate_below k l : l < k -> relocate k (VRef l) = VRef l.
Proof.
  intros H. unfold relocate.
  destruct (Nat.leb_spec k l); [lia | reflexivity].
Qed.

Lemma unaware_pure name (f : Value -> Value) u h gl :
  relocate (length h) (f u) = f u ->
  map (relocate (length h)) gl = gl ->
  unaware (pure_fn name f) u h gl.
Proof. intros Hu Hgl. split; simpl; congruence. Qed.

Lemma unaware_boxing u h gl :
  map (relocate (length h)) gl = gl -> unaware boxing u h gl.
Proof.
  intros Hgl. split; simpl; [|congruence].
  rewrite length_app, Nat.leb_refl. simpl. f_equal. f_equal. lia.
Qed.

Lemma unaware_message_of l h gl :
  l < length h ->
  map (relocate (length h)) gl = gl ->
  unaware message_of (VRef l) h gl.
Proof.
  intros Hl Hgl. split; cbn [message_of fn_code outcome stored];
    [|congruence].
  rewrite lookup_app_l by exact Hl.
  assert (Hsame : forall o : option obj,
            relocate_completion (length h)
              match o with
              | Some (ErrorObj _ message) => Normal (VStr message)
              | _ => Normal VUndefined
              end
            = match o with
              | Some (ErrorObj _ message) => Normal (VStr message)
              | _ => Normal VUndefined
              end)
    by (intros [[| | |]|]; reflexivity).
  now rewrite Hsame.
Qed.

Example map_composition_boxing :
  let m := snd (ok (VNum 5) start) in
  observe ((let* r1 := Result.map (VRef 0) times2 in Result.map r1 boxing) m)
  = (Normal (Normal (VBool true), Normal (VRef 2)), []) /\
  observe (Result.map (VRef 0) (compose "x => g(f(x))" boxing times2) m)
  = (Normal (Normal (VBool true), Normal (VRef 1)), []).
Proof. split; reflexivity. Qed.



(** ** C8: [match] *)

(** C8.  On an [Ok] holding [v], [match(result, onOk, onErr)] is the call
    [onOk(v)]: it completes as that call completes and the journal grows
    by that one invocation.  On an [Err] holding [e] it is the call
    [onErr(e)] in the same way.  In particular
    [match(ok(2), x => x * 2, () => -1)] is [4] and
    [match(err("boom"), x => x * 2, () => -1)] is [-1]. *)
Theorem match_dispatches_once
    (m : machine) (result : Value) (onOk onErr : callback) :
  (forall v, is_ok m result v ->
     match_ result onOk onErr m = call onOk v m /\
     calls (snd (match_ result onOk onErr m)) = calls m ++ [(fn_name onOk, v)]) /\
  (forall e, is_err m result e ->
     match_ result onOk onErr m = call onErr e m /\
     calls (snd (match_ result onOk onErr m)) = calls m ++ [(fn_name onErr, e)]) /\
  (is_result m result ->
     length (calls (snd (match_ result onOk onErr m))) = S (length (calls m))) /\
  fst ((let* r := ok (VNum 2) in match_ r times2 minus1) m) = Normal (VNum 4) /\
  fst ((let* r := err (VStr "boom") in match_ r times2 minus1) m)
  = Normal (VNum (-1)).
Proof.
  assert (Hok : forall v, is_ok m result v ->
     match_ result onOk onErr m = call onOk v m /\
     calls (snd (match_ result onOk onErr m)) = calls m ++ [(fn_name onOk, v)]).
  { intros v H. now rewrite (match_ok _ _ _ _ _ H). }
  assert (Herr : forall e, is_err m result e ->
     match_ result onOk onErr m = call onErr e m /\
     calls (snd (match_ result onOk onErr m)) = calls m ++ [(fn_name onErr, e)]).
  { intros e H. now rewrite (match_err _ _ _ _ _ H). }
  split; [exact Hok|]. split; [exact Herr|]. split; [|split].
  - intros [x [H|H]].
    + destruct (Hok x H) as [_ ->]. rewrite length_app. simpl. lia.
    + destruct (Herr x H) as [_ ->]. rewrite length_app. simpl. lia.
  - autorewrite with fresh_receiver.
    now rewrite (match_ok _ _ (VNum 2)) by auto with result.
  - autorewrite with fresh_receiver.
    now rewrite (match_err _ _ (VStr "boom")) by auto with result.
Qed.

Lemma match_dispatches_once_witness :
  let m := snd (err (VStr "boom") (snd (ok (VNum 2) start))) in
  (is_ok m (VRef 0) (VNum 2) /\
   match_ (VRef 0) times2 minus1 m = call times2 (VNum 2) m /\
   calls (snd (match_ (VRef 0) times2 minus1 m)) = [("x => x * 2", VNum 2)]) /\
  (is_err m (VRef 1) (VStr "boom") /\
   match_ (VRef 1) times2 minus1 m = call minus1 (VStr "boom") m /\
   calls (snd (match_ (VRef 1) times2 minus1 m)) = [("() => -1", VStr "boom")]) /\
  (is_result m (VRef 1) /\
   length (calls (snd (match_ (VRef 1) times2 minus1 m))) = 1).
Proof.
  intros m.
  assert (Ho : is_ok m (VRef 0) (VNum 2)) by reflexivity.
  assert (He : is_err m (VRef 1) (VStr "boom")) by reflexivity.
  assert (Hr : is_result m (VRef 1)) by (exists (VStr "boom"); right; exact He).
  destruct (match_dispatches_once m (VRef 0) times2 minus1) as (Hok & _).
  destruct (match_dispatches_once m (VRef 1) times2 minus1)
    as (_ & Herr & Hone & _).
  destruct (Hok _ Ho) as [Hcall Hcalls].
  destruct (Herr _ He) as [Hcall' Hcalls'].
  split; [|split].
  - split; [exact Ho|]. split; [exact Hcall|]. exact Hcalls.
  - split; [exact He|]. split; [exact Hcall'|]. exact Hcalls'.
  - split; [exact Hr|]. exact (Hone Hr).
Defined.

(** ** C9: [inspect] and [inspectErr] *)

(** The run of a call whose result is dropped in favour of [this]. *)
Lemma call_then_this fn arg (this : Value) m :
  (let* _ := call fn arg in ret this) m =
  (match outcome (fn_code fn arg (heap m) (globals m)) with
   | Normal _ => Normal this
   | Thrown exn => Thrown exn
   end,
   snd (call fn arg m)).
Proof.
  unfold bind, call, ret.
  now destruct (outcome (fn_code fn arg (heap m) (globals m))).
Qed.

Lemma deref_after_call m r o fn arg :
  deref m r = Some o -> deref (snd (call fn arg m)) r = Some o.
Proof. intros H. unfold call. simpl. now apply deref_grow. Qed.

Example inspect_ok_journal :
  calls (snd ((let* r := ok (VNum 7) in Result.inspect r times2) start))
  = [("x => x * 2", VNum 7)].
Proof. reflexivity. Qed.

(** C9.  On an [Ok] holding [x], [inspect(f)] invokes [f] once, with [x],
    and [inspectErr(f)] does not invoke it; on an [Err] holding [x] it is
    the other way round.  What is returned is the receiver itself, which
    is still the same variant holding the same [x] (when [f] throws, that
    failure is what [inspect] ends in, the receiver staying as it was). *)
Theorem inspect_calls_on_matching_variant
    (m : machine) (r x : Value) (f : callback) :
  (is_ok m r x ->
     calls (snd (Result.inspect r f m)) = calls m ++ [(fn_name f, x)] /\
     fst (Result.inspect r f m)
     = match outcome (fn_code f x (heap m) (globals m)) with
       | Normal _ => Normal r
       | Thrown exn => Thrown exn
       end /\
     is_ok (snd (Result.inspect r f m)) r x /\
     Result.inspectErr r f m = (Normal r, m)) /\
  (is_err m r x ->
     calls (snd (Result.inspectErr r f m)) = calls m ++ [(fn_name f, x)] /\
     fst (Result.inspectErr r f m)
     = match outcome (fn_code f x (heap m) (globals m)) with
       | Normal _ => Normal r
       | Thrown exn => Thrown exn
       end /\
     is_err (snd (Result.inspectErr r f m)) r x /\
     Result.inspect r f m = (Normal r, m)).
Proof.
  split; intros H.
  - rewrite (inspect_ok _ _ _ H), (inspectErr_ok _ _ _ H), call_then_this.
    cbn [fst snd]. split; [apply calls_call|]. split; [reflexivity|].
    split; [|reflexivity]. now apply deref_after_call.
  - rewrite (inspectErr_err _ _ _ H), (inspect_err _ _ _ H), call_then_this.
    cbn [fst snd]. split; [apply calls_call|]. split; [reflexivity|].
    split; [|reflexivity]. now apply deref_after_call.
Qed.

Lemma inspect_calls_on_matching_variant_witness :
  let m := snd (err (VStr "boom") (snd (ok (VNum 7) start))) in
  (is_ok m (VRef 0) (VNum 7) /\
   calls (snd (Result.inspect (VRef 0) times2 m)) = [("x => x * 2", VNum 7)] /\
   fst (Result.inspect (VRef 0) times2 m) = Normal (VRef 0) /\
   is_ok (snd (Result.inspect (VRef 0) times2 m)) (VRef 0) (VNum 7) /\
   Result.inspectErr (VRef 0) times2 m = (Normal (VRef 0), m)) /\
  (is_err m (VRef 1) (VStr "boom") /\
   calls (snd (Result.inspectErr (VRef 1) thrower m))
   = [("spy", VStr "boom")] /\
   fst (Result.inspectErr (VRef 1) thrower m) = Thrown (VStr "invoked") /\
   is_err (snd (Result.inspectErr (VRef 1) thrower m)) (VRef 1) (VStr "boom") /\
   Result.inspect (VRef 1) thrower m = (Normal (VRef 1), m)).
Proof.
  intros m.
  assert (Ho : is_ok m (VRef 0) (VNum 7)) by reflexivity.
  assert (He : is_err m (VRef 1) (VStr "boom")) by reflexivity.
  destruct (inspect_calls_on_matching_variant m (VRef 0) (VNum 7) times2)
    as [Hok _].
  destruct (inspect_calls_on_matching_variant m (VRef 1) (VStr "boom") thrower)
    as [_ Herr].
  split.
  - split; [exact Ho|]. exact (Hok Ho).
  - split; [exact He|]. exact (Herr He).
Defined.

(** ** C10: the paths that do nothing return the receiver *)

(** C10.  [err(e).map(f)] and [err(e).inspect(f)] complete exactly as
    [err(e)] does, and [ok(v).mapErr(f)] and [ok(v).inspectErr(f)] exactly
    as [ok(v)] does: the reference returned is the one the constructor
    returned and the machine is the one the constructor left, so nothing
    was allocated and nothing was called.  The same holds for a receiver
    of that class already in the heap. *)
Theorem noop_paths_return_receiver
    (m : machine) (v e : Value) (f : callback) :
  ((let* r := err e in Result.map r f) m = err e m /\
   (let* r := err e in Result.inspect r f) m = err e m /\
   (let* r := ok v in Result.mapErr r f) m = ok v m /\
   (let* r := ok v in Result.inspectErr r f) m = ok v m) /\
  (forall r, is_err m r e ->
     Result.map r f m = (Normal r, m) /\ Result.inspect r f m = (Normal r, m)) /\
  (forall r, is_ok m r v ->
     Result.mapErr r f m = (Normal r, m) /\
     Result.inspectErr r f m = (Normal r, m)).
Proof.
  pose proof (ok_is_ok m v) as Hok.
  pose proof (err_is_err m e) as Herr.
  split; [|split].
  - autorewrite with fresh_receiver.
    rewrite (map_err _ _ _ Herr), (inspect_err _ _ _ Herr),
      (mapErr_ok _ _ _ Hok), (inspectErr_ok _ _ _ Hok).
    repeat split.
  - intros r H. now rewrite (map_err _ _ _ H), (inspect_err _ _ _ H).
  - intros r H. now rewrite (mapErr_ok _ _ _ H), (inspectErr_ok _ _ _ H).
Qed.

Lemma noop_paths_return_receiver_witness :
  let m := snd (ok (VNum 1) (snd (err (VStr "boom") start))) in
  is_err m (VRef 0) (VStr "boom") /\ is_ok m (VRef 1) (VNum 1) /\
  Result.map (VRef 0) thrower m = (Normal (VRef 0), m) /\
  Result.inspect (VRef 0) thrower m = (Normal (VRef 0), m) /\
  Result.mapErr (VRef 1) thrower m = (Normal (VRef 1), m) /\
  Result.inspectErr (VRef 1) thrower m = (Normal (VRef 1), m).
Proof.
  intros m.
  assert (He : is_err m (VRef 0) (VStr "boom")) by reflexivity.
  assert (Ho : is_ok m (VRef 1) (VNum 1)) by reflexivity.
  destruct (noop_paths_return_receiver m (VNum 1) (VStr "boom") thrower)
    as (_ & Herr & Hok).
  destruct (Herr _ He) as [Hmap Hinspect].
  destruct (Hok _ Ho) as [HmapErr HinspectErr].
  split; [exact He|]. split; [exact Ho|]. split; [exact Hmap|].
  split; [exact Hinspect|]. split; [exact HmapErr|]. exact HinspectErr.
Defined.

(** ** Further properties of the library *)

Lemma is_err_last h u g c :
  is_err {| heap := h ++ [ErrObj u]; globals := g; calls := c |}
         (VRef (length h)) u.
Proof. unfold is_err, deref. simpl. now apply list_lookup_middle. Qed.

(** The run of [mapErr] on an [Err], spelled out. *)
Lemma mapErr_err_run m r e fn :
  is_err m r e ->
  let rx := fn_code fn e (heap m) (globals m) in
  Result.mapErr r fn m =
  match outcome rx with
  | Normal u =>
      (Normal (VRef (length (heap m ++ fresh rx))),
       {| heap := (heap m ++ fresh rx) ++ [ErrObj u];
          globals := stored rx;
          calls := calls m ++ [(fn_name fn, e)] |})
  | Thrown x =>
      (Thrown x,
       {| heap := heap m ++ fresh rx;
          globals := stored rx;
          calls := calls m ++ [(fn_name fn, e)] |})
  end.
Proof.
  intros H rx. rewrite (mapErr_err _ _ _ H).
  unfold bind, call. fold rx. now destruct (outcome rx).
Qed.

(** A reference into the heap is below its length. *)
Lemma deref_in_heap m l o : deref m (VRef l) = Some o -> l < length (heap m).
Proof. simpl. apply lookup_lt_Some. Qed.

(** X1.  Exactly one of [isOk()] and [isErr()] answers [true] on a [Result],
    and asking changes nothing. *)
Theorem isOk_isErr_complementary (m : machine) (r : Value) :
  is_result m r ->
  exists b : bool,
    Result.isOk r m = (Normal (VBool b), m) /\
    Result.isErr r m = (Normal (VBool (negb b)), m) /\
    (b = true <-> exists v, is_ok m r v) /\
    (b = false <-> exists e, is_err m r e).
Proof.
  intros [x [H|H]].
  - exists true. rewrite (isOk_ok _ _ _ H), (isErr_ok _ _ _ H).
    repeat split; eauto; try discriminate.
    intros [e He]. unfold is_ok, is_err in *. congruence.
  - exists false. rewrite (isOk_err _ _ _ H), (isErr_err _ _ _ H).
    repeat split; eauto; try discriminate.
    intros [v Hv]. unfold is_ok, is_err in *. congruence.
Qed.

Lemma isOk_isErr_complementary_witness :
  let m := snd (err (VStr "boom") (snd (ok (VNum 2) start))) in
  is_result m (VRef 0) /\ is_result m (VRef 1) /\
  (exists b : bool,
     Result.isOk (VRef 0) m = (Normal (VBool b), m) /\
     Result.isErr (VRef 0) m = (Normal (VBool (negb b)), m)) /\
  (exists b : bool,
     Result.isOk (VRef 1) m = (Normal (VBool b), m) /\
     Result.isErr (VRef 1) m = (Normal (VBool (negb b)), m)).
Proof.
  intros m.
  assert (Hr0 : is_result m (VRef 0)) by (exists (VNum 2); left; reflexivity).
  assert (Hr1 : is_result m (VRef 1))
    by (exists (VStr "boom"); right; reflexivity).
  destruct (isOk_isErr_complementary m (VRef 0) Hr0) as (b0 & H0 & H0' & _).
  destruct (isOk_isErr_complementary m (VRef 1) Hr1) as (b1 & H1 & H1' & _).
  split; [exact Hr0|]. split; [exact Hr1|]. split.
  - exists b0. split; [exact H0 | exact H0'].
  - exists b1. split; [exact H1 | exact H1'].
Defined.

(** X2.  [r.isOkAnd(f)] is [r.mapOr(f, false)]: the same answer, the same
    invocations, the same machine. *)
Theorem isOkAnd_is_mapOr_false (m : machine) (r : Value) (f : callback) :
  is_result m r ->
  Result.isOkAnd r f m = Result.mapOr r f (VBool false) m.
Proof.
  intros [x [H|H]].
  - now rewrite (isOkAnd_ok _ _ _ H), (mapOr_ok _ _ _ H).
  - now rewrite (isOkAnd_err _ _ _ H), (mapOr_err _ _ _ H).
Qed.

Lemma isOkAnd_is_mapOr_false_witness :
  let m := snd (err (VStr "boom") (snd (ok (VNum 2) start))) in
  is_result m (VRef 0) /\ is_result m (VRef 1) /\
  Result.isOkAnd (VRef 0) times2 m = Result.mapOr (VRef 0) times2 (VBool false) m /\
  Result.isOkAnd (VRef 1) thrower m = Result.mapOr (VRef 1) thrower (VBool false) m.
Proof.
  intros m.
  assert (Hr0 : is_result m (VRef 0)) by (exists (VNum 2); left; reflexivity).
  assert (Hr1 : is_result m (VRef 1))
    by (exists (VStr "boom"); right; reflexivity).
  split; [exact Hr0|]. split; [exact Hr1|]. split.
  - exact (isOkAnd_is_mapOr_false m (VRef 0) times2 Hr0).
  - exact (isOkAnd_is_mapOr_false m (VRef 1) thrower Hr1).
Defined.

(** X3.  [match(r, onOk, onErr)] is [r.mapOrElse(onOk, onErr)]: the free
    function and the method run the same callback on the same value and
    leave the same machine. *)
Theorem match_is_mapOrElse (m : machine) (r : Value) (onOk onErr : callback) :
  is_result m r ->
  match_ r onOk onErr m = Result.mapOrElse r onOk onErr m.
Proof.
  intros [x [H|H]].
  - now rewrite (match_ok _ _ _ _ _ H), (mapOrElse_ok _ _ _ H).
  - now rewrite (match_err _ _ _ _ _ H), (mapOrElse_err _ _ _ H).
Qed.

Lemma match_is_mapOrElse_witness :
  let m := snd (err (VStr "boom") (snd (ok (VNum 2) start))) in
  is_result m (VRef 0) /\ is_result m (VRef 1) /\
  match_ (VRef 0) times2 minus1 m = Result.mapOrElse (VRef 0) times2 minus1 m /\
  match_ (VRef 1) times2 minus1 m = Result.mapOrElse (VRef 1) times2 minus1 m.
Proof.
  intros m.
  assert (Hr0 : is_result m (VRef 0)) by (exists (VNum 2); left; reflexivity).
  assert (Hr1 : is_result m (VRef 1))
    by (exists (VStr "boom"); right; reflexivity).
  split; [exact Hr0|]. split; [exact Hr1|]. split.
  - exact (match_is_mapOrElse m (VRef 0) times2 minus1 Hr0).
  - exact (match_is_mapOrElse m (VRef 1) times2 minus1 Hr1).
Defined.

(** X4.  [r.unwrapErr()] is [r.expectErr(msg)] with the fixed message
    [called `Result.unwrapErr()` on an `Ok` value], on either variant. *)
Theorem unwrapErr_is_expectErr (m : machine) (r : Value) :
  is_result m r ->
  Result.unwrapErr r m =
  Result.expectErr r "called `Result.unwrapErr()` on an `Ok` value" m.
Proof.
  intros [x [H|H]].
  - now rewrite (unwrapErr_ok _ _ _ H), (expectErr_ok _ _ _ _ H).
  - now rewrite (unwrapErr_err _ _ _ H), (expectErr_err _ _ _ _ H).
Qed.

Lemma unwrapErr_is_expectErr_witness :
  let m := snd (err (VStr "boom") (snd (ok (VNum 2) start))) in
  is_result m (VRef 0) /\ is_result m (VRef 1) /\
  Result.unwrapErr (VRef 0) m =
  Result.expectErr (VRef 0) "called `Result.unwrapErr()` on an `Ok` value" m /\
  Result.unwrapErr (VRef 1) m =
  Result.expectErr (VRef 1) "called `Result.unwrapErr()` on an `Ok` value" m.
Proof.
  intros m.
  assert (Hr0 : is_result m (VRef 0)) by (exists (VNum 2); left; reflexivity).
  assert (Hr1 : is_result m (VRef 1))
    by (exists (VStr "boom"); right; reflexivity).
  split; [exact Hr0|]. split; [exact Hr1|]. split.
  - exact (unwrapErr_is_expectErr m (VRef 0) Hr0).
  - exact (unwrapErr_is_expectErr m (VRef 1) Hr1).
Defined.

Example unwrap_is_expect_when_toString_throws_the_error :
  let thrown_by_itself :=
    PlainObj (Some (fun g => (Thrown (VRef 0), g))) in
  let m := snd (err (VRef 0) (snd (new thrown_by_itself start))) in
  is_err m (VRef 1) (VRef 0) /\
  Result.unwrap (VRef 1) m = (Thrown (VRef 0), m) /\
  Result.expect (VRef 1) "ctx" m = (Thrown (VRef 0), m).
Proof. repeat split. Qed.



(** X6.  [mapOr(f, d)]: on an [Ok] holding [v] it is the call [f(v)] whatever
    the default is; on an [Err] it returns [d] itself and neither invokes
    [f] nor changes the machine. *)
Theorem mapOr_default_only_on_err
    (m : machine) (v e d d' : Value) (f : callback) :
  (let* r := ok v in Result.mapOr r f d) m
  = (let* r := ok v in Result.mapOr r f d') m /\
  fst ((let* r := ok v in Result.mapOr r f d) m)
  = outcome (fn_code f v (heap m ++ [OkObj v]) (globals m)) /\
  calls (snd ((let* r := ok v in Result.mapOr r f d) m))
  = calls m ++ [(fn_name f, v)] /\
  (let* r := err e in Result.mapOr r f d) m = (Normal d, snd (err e m)).
Proof.
  pose proof (ok_is_ok m v) as Hok.
  pose proof (err_is_err m e) as Herr.
  autorewrite with fresh_receiver.
  rewrite !(mapOr_ok _ _ _ Hok), (mapOr_err _ _ _ Herr).
  repeat split.
Qed.

(** X7.  [mapOrElse(f, fallback)] invokes exactly one of its two callbacks:
    [f] on the value of an [Ok], [fallback] on the error of an [Err], and
    completes as that call completes. *)
Theorem mapOrElse_calls_one
    (m : machine) (v e : Value) (f fallback : callback) :
  (let* r := ok v in Result.mapOrElse r f fallback) m
  = (let* r := ok v in call f v) m /\
  (let* r := err e in Result.mapOrElse r f fallback) m
  = (let* r := err e in call fallback e) m /\
  calls (snd ((let* r := ok v in Result.mapOrElse r f fallback) m))
  = calls m ++ [(fn_name f, v)] /\
  calls (snd ((let* r := err e in Result.mapOrElse r f fallback) m))
  = calls m ++ [(fn_name fallback, e)].
Proof.
  pose proof (ok_is_ok m v) as Hok.
  pose proof (err_is_err m e) as Herr.
  autorewrite with fresh_receiver.
  rewrite !(mapOrElse_ok _ _ _ Hok), !(mapOrElse_err _ _ _ Herr).
  repeat split.
Qed.

(** X8.  [isErrAnd(f)]: on an [Err] holding [e] it is the call [f(e)]; on an
    [Ok] it answers [false] without invoking [f]. *)
Theorem isErrAnd_tests_errors_only (m : machine) (v e : Value) (f : callback) :
  (let* r := err e in Result.isErrAnd r f) m
  = (let* r := err e in call f e) m /\
  fst ((let* r := err e in Result.isErrAnd r f) m)
  = outcome (fn_code f e (heap m ++ [ErrObj e]) (globals m)) /\
  (let* r := ok v in Result.isErrAnd r f) m
  = (Normal (VBool false), snd (ok v m)).
Proof.
  pose proof (ok_is_ok m v) as Hok.
  pose proof (err_is_err m e) as Herr.
  autorewrite with fresh_receiver.
  rewrite !(isErrAnd_err _ _ _ Herr), (isErrAnd_ok _ _ _ Hok).
  repeat split.
Qed.

(** X9.  [expectErr(msg)]: [err(e).expectErr(msg)] returns [e];
    [ok(v).expectErr(msg)] always throws.  When the conversion of [v] to a
    string yields [s], what is thrown is an [Error] whose message is
    [msg], a colon and a space, and [s], so the message includes [msg] and
    [s]; when the conversion itself throws, that throw is the outcome. *)
Theorem expectErr_returns_or_fails (m : machine) (v e : Value) (msg : string) :
  (let* r := err e in Result.expectErr r msg) m = (Normal e, snd (err e m)) /\
  throws (let* r := ok v in Result.expectErr r msg) m /\
  match ToString v (snd (ok v m)) with
  | (Normal s, _) =>
      failure_description ((let* r := ok v in Result.expectErr r msg) m)
      = Some (msg +:+ ": " +:+ s) /\
      includes msg (msg +:+ ": " +:+ s) = true /\
      includes s (msg +:+ ": " +:+ s) = true
  | (Thrown x, m') =>
      (let* r := ok v in Result.expectErr r msg) m = (Thrown x, m')
  end.
Proof.
  unfold throws. autorewrite with fresh_receiver. split; [|split].
  - apply expectErr_err; auto with result.
  - rewrite (expectErr_ok _ _ v) by auto with result.
    apply unwrapFailed_throws.
  - rewrite (expectErr_ok _ _ v) by auto with result.
    destruct (ToString v (snd (ok v m))) as [[s|x] m'] eqn:H.
    + rewrite (unwrapFailed_description _ _ _ _ _ H).
      split; [reflexivity|]. split.
      * apply includes_prefix.
      * apply includes_skip, includes_suffix.
    + now apply unwrapFailed_conversion_throws.
Qed.

(** X10.  [mapErr(f)] on an [Err] holding [e]: [f] is invoked once, with [e];
    when it returns [u] the result is a new [Err] holding [u], at an
    address that was free before, and the receiver still holds [e]; when
    it throws, that is what [mapErr] throws. *)
Theorem mapErr_builds_new_err (m : machine) (r e : Value) (f : callback) :
  is_err m r e ->
  calls (snd (Result.mapErr r f m)) = calls m ++ [(fn_name f, e)] /\
  is_err (snd (Result.mapErr r f m)) r e /\
  match outcome (fn_code f e (heap m) (globals m)) with
  | Normal u =>
      exists r',
        fst (Result.mapErr r f m) = Normal r' /\
        is_err (snd (Result.mapErr r f m)) r' u /\
        deref m r' = None /\ r' <> r
  | Thrown x => fst (Result.mapErr r f m) = Thrown x
  end.
Proof.
  intros H. rewrite (mapErr_err_run _ _ _ f H). cbv zeta.
  destruct (outcome (fn_code f e (heap m) (globals m))) as [u|x];
    cbn [fst snd calls].
  - split; [reflexivity|]. split.
    + rewrite <- app_assoc. now apply deref_grow.
    + eexists. split; [reflexivity|]. split; [apply is_err_last|]. split.
      * simpl. apply lookup_ge_None. rewrite length_app. lia.
      * intros <-. apply deref_in_heap in H. rewrite length_app in H. lia.
  - split; [reflexivity|]. split; [|reflexivity]. now apply deref_grow.
Qed.

Lemma mapErr_builds_new_err_witness :
  let m := snd (err (VNum 3) start) in
  is_err m (VRef 0) (VNum 3) /\
  calls (snd (Result.mapErr (VRef 0) times2 m)) = [("x => x * 2", VNum 3)] /\
  is_err (snd (Result.mapErr (VRef 0) times2 m)) (VRef 0) (VNum 3) /\
  exists r',
    fst (Result.mapErr (VRef 0) times2 m) = Normal r' /\
    is_err (snd (Result.mapErr (VRef 0) times2 m)) r' (VNum 6) /\
    deref m r' = None /\ r' <> VRef 0.
Proof.
  intros m.
  assert (He : is_err m (VRef 0) (VNum 3)) by reflexivity.
  destruct (mapErr_builds_new_err m (VRef 0) (VNum 3) times2 He)
    as (Hcalls & Hkept & Hnew).
  split; [exact He|]. split; [exact Hcalls|]. split; [exact Hkept|].
  exact Hnew.
Defined.

(** X11.  [map(f)] on an [Ok] holding [v] never returns the receiver: when [f]
    returns [u] the result is a new [Ok] holding [u], at an address that
    was free before, and the receiver still holds [v]. *)
Theorem map_builds_new_ok (m : machine) (r v : Value) (f : callback) :
  is_ok m r v ->
  is_ok (snd (Result.map r f m)) r v /\
  match outcome (fn_code f v (heap m) (globals m)) with
  | Normal u =>
      exists r',
        fst (Result.map r f m) = Normal r' /\
        is_ok (snd (Result.map r f m)) r' u /\
        deref m r' = None /\ r' <> r
  | Thrown x => fst (Result.map r f m) = Thrown x
  end.
Proof.
  intros H. rewrite (map_ok_run _ _ _ f H). cbv zeta.
  destruct (outcome (fn_code f v (heap m) (globals m))) as [u|x];
    cbn [fst snd].
  - split.
    + rewrite <- app_assoc. now apply deref_grow.
    + eexists. split; [reflexivity|]. split; [apply is_ok_last|]. split.
      * simpl. apply lookup_ge_None. rewrite length_app. lia.
      * intros <-. apply deref_in_heap in H. rewrite length_app in H. lia.
  - split; [|reflexivity]. now apply deref_grow.
Qed.

Lemma map_builds_new_ok_witness :
  let m := snd (ok (VNum 3) start) in
  is_ok m (VRef 0) (VNum 3) /\
  is_ok (snd (Result.map (VRef 0) times2 m)) (VRef 0) (VNum 3) /\
  exists r',
    fst (Result.map (VRef 0) times2 m) = Normal r' /\
    is_ok (snd (Result.map (VRef 0) times2 m)) r' (VNum 6) /\
    deref m r' = None /\ r' <> VRef 0.
Proof.
  intros m.
  assert (Ho : is_ok m (VRef 0) (VNum 3)) by reflexivity.
  destruct (map_builds_new_ok m (VRef 0) (VNum 3) times2 Ho) as (Hkept & Hnew).
  split; [exact Ho|]. split; [exact Hkept|]. exact Hnew.
Defined.

(** X12.  [map] and [mapErr] do not interfere: [r.map(f).mapErr(g)] and
    [r.mapErr(g).map(f)] run the same callback on the same value and end
    with the same completion and the same machine. *)
Theorem map_mapErr_commute (m : machine) (r : Value) (f g : callback) :
  is_result m r ->
  (let* r1 := Result.map r f in Result.mapErr r1 g) m
  = (let* r1 := Result.mapErr r g in Result.map r1 f) m.
Proof.
  intros [x [H|H]]; unfold bind.
  - rewrite (mapErr_ok _ _ _ H), (map_ok_run _ _ _ f H). cbv zeta.
    destruct (outcome (fn_code f x (heap m) (globals m))) as [u|exn];
      [|reflexivity].
    now rewrite (mapErr_ok _ _ u) by apply is_ok_last.
  - rewrite (map_err _ _ _ H), (mapErr_err_run _ _ _ g H). cbv zeta.
    destruct (outcome (fn_code g x (heap m) (globals m))) as [u|exn];
      [|reflexivity].
    now rewrite (map_err _ _ u) by apply is_err_last.
Qed.

Lemma map_mapErr_commute_witness :
  let m := snd (err (VStr "boom") (snd (ok (VNum 2) start))) in
  is_result m (VRef 0) /\ is_result m (VRef 1) /\
  (let* r1 := Result.map (VRef 0) times2 in Result.mapErr r1 minus1) m
  = (let* r1 := Result.mapErr (VRef 0) minus1 in Result.map r1 times2) m /\
  (let* r1 := Result.map (VRef 1) times2 in Result.mapErr r1 minus1) m
  = (let* r1 := Result.mapErr (VRef 1) minus1 in Result.map r1 times2) m.
Proof.
  intros m.
  assert (Hr0 : is_result m (VRef 0)) by (exists (VNum 2); left; reflexivity).
  assert (Hr1 : is_result m (VRef 1))
    by (exists (VStr "boom"); right; reflexivity).
  split; [exact Hr0|]. split; [exact Hr1|]. split.
  - exact (map_mapErr_commute m (VRef 0) times2 minus1 Hr0).
  - exact (map_mapErr_commute m (VRef 1) times2 minus1 Hr1).
Defined.

(** X13.  Identity law: [r.map(x => x)] answers [isOk()] and [val] as [r] does
    and leaves the caller's variables alone. *)
Theorem map_identity (m : machine) (r : Value) :
  is_result m r ->
  observe (Result.map r identity m) = observe (Normal r, m).
Proof.
  intros [x [H|H]].
  - rewrite (map_ok_run _ _ _ identity H). cbv zeta. simpl outcome. cbv iota.
    rewrite observe_ok_last by reflexivity.
    unfold observe. now rewrite (isOk_ok _ _ _ H), (val_ok _ _ _ H).
  - now rewrite (map_err _ _ _ H).
Qed.

Lemma map_identity_witness :
  let m := snd (err (VStr "boom") (snd (ok (VNum 2) start))) in
  is_result m (VRef 0) /\ is_result m (VRef 1) /\
  observe (Result.map (VRef 0) identity m) = observe (Normal (VRef 0), m) /\
  observe (Result.map (VRef 1) identity m) = observe (Normal (VRef 1), m).
Proof.
  intros m.
  assert (Hr0 : is_result m (VRef 0)) by (exists (VNum 2); left; reflexivity).
  assert (Hr1 : is_result m (VRef 1))
    by (exists (VStr "boom"); right; reflexivity).
  split; [exact Hr0|]. split; [exact Hr1|]. split.
  - exact (map_identity m (VRef 0) Hr0).
  - exact (map_identity m (VRef 1) Hr1).
Defined.

Lemma inspect_run_ok m r v fn r' m' :
  is_ok m r v -> Result.inspect r fn m = (Normal r', m') ->
  r' = r /\ is_ok m' r v.
Proof.
  intros H. rewrite (inspect_ok _ _ _ H), call_then_this.
  destruct (outcome (fn_code fn v (heap m) (globals m))); [|discriminate].
  intros [= <- <-]. split; [reflexivity|]. now apply deref_after_call.
Qed.

Lemma inspectErr_run_err m r e fn r' m' :
  is_err m r e -> Result.inspectErr r fn m = (Normal r', m') ->
  r' = r /\ is_err m' r e.
Proof.
  intros H. rewrite (inspectErr_err _ _ _ H), call_then_this.
  destruct (outcome (fn_code fn e (heap m) (globals m))); [|discriminate].
  intros [= <- <-]. split; [reflexivity|]. now apply deref_after_call.
Qed.

(** X14.  No transformation changes the variant: whatever [map], [mapErr],
    [inspect] or [inspectErr] returns on a [Result] answers [isOk()] and
    [isErr()] as the receiver did. *)
Theorem transformations_keep_variant
    (m m' : machine) (r r' : Value) (f : callback) :
  is_result m r ->
  Result.map r f m = (Normal r', m') \/
  Result.mapErr r f m = (Normal r', m') \/
  Result.inspect r f m = (Normal r', m') \/
  Result.inspectErr r f m = (Normal r', m') ->
  fst (Result.isOk r' m') = fst (Result.isOk r m) /\
  fst (Result.isErr r' m') = fst (Result.isErr r m).
Proof.
  intros [x [H|H]] Hrun.
  - rewrite (isOk_ok _ _ _ H), (isErr_ok _ _ _ H).
    assert (exists u, is_ok m' r' u) as [u Hu].
    { destruct Hrun as [Hrun|[Hrun|[Hrun|Hrun]]].
      - rewrite (map_ok_run _ _ _ f H) in Hrun. cbv zeta in Hrun.
        destruct (outcome (fn_code f x (heap m) (globals m))) as [u|];
          [|discriminate].
        injection Hrun as <- <-. exists u. apply is_ok_last.
      - rewrite (mapErr_ok _ _ _ H) in Hrun. injection Hrun as <- <-. eauto.
      - destruct (inspect_run_ok _ _ _ _ _ _ H Hrun) as [-> Hu]. eauto.
      - rewrite (inspectErr_ok _ _ _ H) in Hrun. injection Hrun as <- <-. eauto. }
    now rewrite (isOk_ok _ _ _ Hu), (isErr_ok _ _ _ Hu).
  - rewrite (isOk_err _ _ _ H), (isErr_err _ _ _ H).
    assert (exists u, is_err m' r' u) as [u Hu].
    { destruct Hrun as [Hrun|[Hrun|[Hrun|Hrun]]].
      - rewrite (map_err _ _ _ H) in Hrun. injection Hrun as <- <-. eauto.
      - rewrite (mapErr_err_run _ _ _ f H) in Hrun. cbv zeta in Hrun.
        destruct (outcome (fn_code f x (heap m) (globals m))) as [u|];
          [|discriminate].
        injection Hrun as <- <-. exists u. apply is_err_last.
      - rewrite (inspect_err _ _ _ H) in Hrun. injection Hrun as <- <-. eauto.
      - destruct (inspectErr_run_err _ _ _ _ _ _ H Hrun) as [-> Hu]. eauto. }
    now rewrite (isOk_err _ _ _ Hu), (isErr_err _ _ _ Hu).
Qed.

Lemma transformations_keep_variant_witness :
  let m := snd (err (VStr "boom") start) in
  let out := Result.mapErr (VRef 0) times2 m in
  is_result m (VRef 0) /\
  Result.mapErr (VRef 0) times2 m = (Normal (VRef 1), snd out) /\
  fst (Result.isOk (VRef 1) (snd out)) = Normal (VBool false) /\
  fst (Result.isErr (VRef 1) (snd out)) = Normal (VBool true).
Proof.
  intros m out.
  assert (Hr : is_result m (VRef 0))
    by (exists (VStr "boom"); right; reflexivity).
  assert (Hrun : Result.mapErr (VRef 0) times2 m = (Normal (VRef 1), snd out))
    by reflexivity.
  destruct (transformations_keep_variant m (snd out) (VRef 0) (VRef 1) times2
              Hr (or_intror (or_introl Hrun))) as [HisOk HisErr].
  split; [exact Hr|]. split; [exact Hrun|]. split; [exact HisOk|].
  exact HisErr.
Defined.

(** X15.  An extraction that returns has proved the variant: when [unwrap] or
    [expect] returns [x] the receiver is an [Ok] holding [x], when
    [unwrapErr] or [expectErr] returns [x] it is an [Err] holding [x]; in
    both cases the machine is untouched. *)
Theorem extraction_returns_what_is_held
    (m m' : machine) (r x : Value) (msg : string) :
  is_result m r ->
  (Result.unwrap r m = (Normal x, m') \/ Result.expect r msg m = (Normal x, m')
   -> is_ok m r x /\ m' = m) /\
  (Result.unwrapErr r m = (Normal x, m') \/
   Result.expectErr r msg m = (Normal x, m')
   -> is_err m r x /\ m' = m).
Proof.
  intros [y [H|H]]; split; intros [Hrun|Hrun].
  - rewrite (unwrap_ok _ _ _ H) in Hrun. now injection Hrun as <- <-.
  - rewrite (expect_ok _ _ _ _ H) in Hrun. now injection Hrun as <- <-.
  - rewrite (unwrapErr_ok _ _ _ H) in Hrun. now apply unwrapFailed_never_returns in Hrun.
  - rewrite (expectErr_ok _ _ _ _ H) in Hrun. now apply unwrapFailed_never_returns in Hrun.
  - rewrite (unwrap_err _ _ _ H) in Hrun. discriminate.
  - rewrite (expect_err _ _ _ _ H) in Hrun. now apply unwrapFailed_never_returns in Hrun.
  - rewrite (unwrapErr_err _ _ _ H) in Hrun. now injection Hrun as <- <-.
  - rewrite (expectErr_err _ _ _ _ H) in Hrun. now injection Hrun as <- <-.
Qed.

Lemma extraction_returns_what_is_held_witness :
  let m := snd (err (VStr "boom") (snd (ok (VNum 2) start))) in
  is_result m (VRef 0) /\ is_result m (VRef 1) /\
  Result.unwrap (VRef 0) m = (Normal (VNum 2), m) /\
  is_ok m (VRef 0) (VNum 2) /\
  Result.expectErr (VRef 1) "ctx" m = (Normal (VStr "boom"), m) /\
  is_err m (VRef 1) (VStr "boom").
Proof.
  intros m.
  assert (Hr0 : is_result m (VRef 0)) by (exists (VNum 2); left; reflexivity).
  assert (Hr1 : is_result m (VRef 1))
    by (exists (VStr "boom"); right; reflexivity).
  assert (H0 : Result.unwrap (VRef 0) m = (Normal (VNum 2), m)) by reflexivity.
  assert (H1 : Result.expectErr (VRef 1) "ctx" m = (Normal (VStr "boom"), m))
    by reflexivity.
  destruct (extraction_returns_what_is_held m m (VRef 0) (VNum 2) "ctx" Hr0)
    as [Hok _].
  destruct (extraction_returns_what_is_held m m (VRef 1) (VStr "boom") "ctx" Hr1)
    as [_ Herr].
  split; [exact Hr0|]. split; [exact Hr1|]. split; [exact H0|].
  split; [exact (proj1 (Hok (or_introl H0)))|]. split; [exact H1|].
  exact (proj1 (Herr (or_intror H1))).
Defined.

(** ** The demonstration script *)

(** The run of [myReadFileSync], spelled out: whatever [readFileSync]
    does, one object is allocated after those it created. *)
Lemma myReadFileSync_run readFileSync path m :
  let rx := readFileSync [path; VStr "utf-8"] (heap m) (globals m) in
  myReadFileSync readFileSync path m =
  (Normal (VRef (length (heap m ++ fresh rx))),
   {| heap := (heap m ++ fresh rx) ++
              [match outcome rx with
               | Normal data => OkObj data
               | Thrown error => ErrObj error
               end];
      globals := stored rx;
      calls := calls m |}).
Proof.
  intros rx. unfold myReadFileSync, try_catch, bind, call_external.
  fold rx. now destruct (outcome rx).
Qed.

(** X16.  [myReadFileSync] turns the exception of [readFileSync] into a value:
    it never throws, and returns a new [Ok] holding the data when
    [readFileSync] returned, a new [Err] holding what was thrown when it
    threw. *)
Theorem myReadFileSync_never_throws
    (readFileSync : external) (path : Value) (m : machine) :
  exists r m',
    myReadFileSync readFileSync path m = (Normal r, m') /\
    deref m r = None /\
    calls m' = calls m /\
    match outcome (readFileSync [path; VStr "utf-8"] (heap m) (globals m)) with
    | Normal data => is_ok m' r data
    | Thrown error => is_err m' r error
    end.
Proof.
  rewrite myReadFileSync_run. cbv zeta.
  eexists _, _. split; [reflexivity|]. split; [|split; [reflexivity|]].
  - simpl. apply lookup_ge_None. rewrite length_app. lia.
  - destruct (outcome (readFileSync _ _ _)); [apply is_ok_last|apply is_err_last].
Qed.

(** X17.  Reading then matching: [match(myReadFileSync(path), onOk, onErr)] is
    the call of [onOk] on the data when [readFileSync] returned and the
    call of [onErr] on what was thrown when it threw. *)
Theorem myReadFileSync_then_match
    (readFileSync : external) (path : Value) (onOk onErr : callback)
    (m : machine) :
  (let* r := myReadFileSync readFileSync path in match_ r onOk onErr) m =
  match outcome (readFileSync [path; VStr "utf-8"] (heap m) (globals m)) with
  | Normal data => call onOk data (snd (myReadFileSync readFileSync path m))
  | Thrown error => call onErr error (snd (myReadFileSync readFileSync path m))
  end.
Proof.
  unfold bind. rewrite myReadFileSync_run. cbv zeta. cbn [snd].
  destruct (outcome (readFileSync _ _ _)) as [data|error].
  - now rewrite (match_ok _ _ data) by apply is_ok_last.
  - now rewrite (match_err _ _ error) by apply is_err_last.
Qed.

Lemma script_end_ok m r v :
  is_ok m r v -> script_end r m = (Normal VUndefined, m).
Proof.
  intros H. unfold script_end, bind.
  now rewrite (expect_ok _ _ _ _ H), (isErr_ok _ _ _ H).
Qed.

Lemma script_end_err m r e :
  is_err m r e ->
  script_end r m = unwrapFailed "=======failed to read file=====" e m.
Proof.
  intros H. unfold script_end, bind. rewrite (expect_err _ _ _ _ H).
  now destruct (unwrapFailed_throws "=======failed to read file=====" e m)
    as (x & m' & ->).
Qed.

(** X18.  In the script's last lines the guarded second [expect] is never
    reached: they behave as the first [expect] alone, returning on an
    [Ok] and throwing on an [Err]: an [Error] with the first message, a
    colon and a space, and the string the held error converts to, or what
    that conversion throws. *)
Theorem script_end_is_first_expect (m : machine) (r : Value) :
  is_result m r ->
  script_end r m
  = (let* _ := Result.expect r "=======failed to read file=====" in
     ret VUndefined) m /\
  (forall v, is_ok m r v -> script_end r m = (Normal VUndefined, m)) /\
  (forall e, is_err m r e ->
     throws (script_end r) m /\
     match ToString e m with
     | (Normal s, _) =>
         failure_description (script_end r m)
         = Some ("=======failed to read file=====: " +:+ s)
     | (Thrown x, m') => script_end r m = (Thrown x, m')
     end).
Proof.
  intros Hr. split; [|split].
  - destruct Hr as [x [H|H]].
    + rewrite (script_end_ok _ _ _ H). unfold bind.
      now rewrite (expect_ok _ _ _ _ H).
    + rewrite (script_end_err _ _ _ H). unfold bind.
      rewrite (expect_err _ _ _ _ H).
      now destruct (unwrapFailed_throws "=======failed to read file=====" x m)
        as (y & m' & ->).
  - apply script_end_ok.
  - intros e H. unfold throws. rewrite (script_end_err _ _ _ H).
    split; [apply unwrapFailed_throws|].
    destruct (ToString e m) as [[s|x] m'] eqn:Hs.
    + now rewrite (unwrapFailed_description _ _ _ _ _ Hs).
    + now apply unwrapFailed_conversion_throws.
Qed.

Lemma script_end_is_first_expect_witness :
  let m := snd (err (VStr "ENOENT") (snd (ok (VStr "text") start))) in
  is_result m (VRef 0) /\ is_result m (VRef 1) /\
  script_end (VRef 0) m = (Normal VUndefined, m) /\
  failure_description (script_end (VRef 1) m)
  = Some "=======failed to read file=====: ENOENT".
Proof.
  intros m.
  assert (Ho : is_ok m (VRef 0) (VStr "text")) by reflexivity.
  assert (He : is_err m (VRef 1) (VStr "ENOENT")) by reflexivity.
  assert (Hr0 : is_result m (VRef 0)) by (exists (VStr "text"); left; exact Ho).
  assert (Hr1 : is_result m (VRef 1)) by (exists (VStr "ENOENT"); right; exact He).
  destruct (script_end_is_first_expect m (VRef 0) Hr0) as (_ & Hok & _).
  destruct (script_end_is_first_expect m (VRef 1) Hr1) as (_ & _ & Herr).
  split; [exact Hr0|]. split; [exact Hr1|]. split; [exact (Hok _ Ho)|].
  exact (proj2 (Herr _ He)).
Defined.

(** X19.  Reading a file and running the script's last lines on the result
    (the statements in between left aside) ends normally exactly when
    [readFileSync] returned.  When it threw [error], the run throws: an
    [Error] whose message is the first [expect]'s text, a colon and a
    space, and the string [error] converts to, or what that conversion
    throws. *)
Theorem read_then_script_end_fails_iff_read_fails
    (readFileSync : external) (path : Value) (m : machine) :
  let out := (let* r := myReadFileSync readFileSync path in script_end r) m in
  match outcome (readFileSync [path; VStr "utf-8"] (heap m) (globals m)) with
  | Normal _ =>
      out = (Normal VUndefined, snd (myReadFileSync readFileSync path m))
  | Thrown error =>
      throws (let* r := myReadFileSync readFileSync path in script_end r) m /\
      match ToString error (snd (myReadFileSync readFileSync path m)) with
      | (Normal s, _) =>
          failure_description out
          = Some ("=======failed to read file=====: " +:+ s)
      | (Thrown x, m') => out = (Thrown x, m')
      end
  end.
Proof.
  unfold throws, bind. rewrite myReadFileSync_run. cbv zeta. cbn [snd].
  destruct (outcome (readFileSync _ _ _)) as [data|error].
  - now rewrite (script_end_ok _ _ data) by apply is_ok_last.
  - rewrite (script_end_err _ _ error) by apply is_err_last. split.
    + apply unwrapFailed_throws.
    + destruct (ToString error _) as [[s|x] m'] eqn:Hs.
      * now rewrite (unwrapFailed_description _ _ _ _ _ Hs).
      * now apply unwrapFailed_conversion_throws.
Qed.

(** ** The first draft against the library *)

Ltac by_draft_class H :=
  unfold is_ok, is_err in H;
  unfold Draft.match_, match_, bind,
    Draft.Result.is_ok, Draft.Result.is_err, Draft.Result.unwrap,
    Draft.Result.val, Draft.Result.err,
    Result.isOk, Result.isErr, Result.unwrap, Result.val,
    invoke_method, read_accessor;
  rewrite ?H;
  unfold Draft.Ok.is_ok, Draft.Ok.is_err, Draft.Ok.unwrap, Draft.Ok.val,
    Draft.Err.is_ok, Draft.Err.is_err, Draft.Err.unwrap, Draft.Err.err,
    Ok.isOk, Ok.isErr, Ok.unwrap, Ok.val,
    Err.isOk, Err.isErr, Err.unwrap, Err.val,
    bind, ret, this_value, this_error;
  cbn [truthy]; rewrite ?H; reflexivity.

(** X20.  The draft's [match] and the library's [match] are the same function
    on a [Result]: reading the error through [err] (draft) or through
    [val] (library) makes no difference. *)
Theorem draft_match_agrees
    (m : machine) (r : Value) (onOk onErr : callback) :
  is_result m r ->
  Draft.match_ r onOk onErr m = match_ r onOk onErr m.
Proof. intros [x [H|H]]; by_draft_class H. Qed.

Lemma draft_match_agrees_witness :
  let m := snd (err (VStr "boom") (snd (ok (VNum 2) start))) in
  is_result m (VRef 0) /\ is_result m (VRef 1) /\
  Draft.match_ (VRef 0) times2 minus1 m = match_ (VRef 0) times2 minus1 m /\
  Draft.match_ (VRef 1) times2 minus1 m = match_ (VRef 1) times2 minus1 m.
Proof.
  intros m.
  assert (Hr0 : is_result m (VRef 0)) by (exists (VNum 2); left; reflexivity).
  assert (Hr1 : is_result m (VRef 1))
    by (exists (VStr "boom"); right; reflexivity).
  split; [exact Hr0|]. split; [exact Hr1|]. split.
  - exact (draft_match_agrees m (VRef 0) times2 minus1 Hr0).
  - exact (draft_match_agrees m (VRef 1) times2 minus1 Hr1).
Defined.

(** X21.  The draft's operations survive in the library unchanged: [is_ok],
    [is_err] and [unwrap] run as [isOk], [isErr] and [unwrap] do, and the
    library's single accessor [val] reads what the draft read through
    [val] on an [Ok] and through [err] on an [Err]. *)
Theorem draft_operations_agree (m : machine) (r : Value) :
  is_result m r ->
  Draft.Result.is_ok r m = Result.isOk r m /\
  Draft.Result.is_err r m = Result.isErr r m /\
  Draft.Result.unwrap r m = Result.unwrap r m /\
  (forall v, is_ok m r v ->
     Draft.Result.val r m = Result.val r m /\ Result.val r m = (Normal v, m)) /\
  (forall e, is_err m r e ->
     Draft.Result.err r m = Result.val r m /\ Result.val r m = (Normal e, m)).
Proof.
  intros Hr.
  assert (Hval : forall v, is_ok m r v ->
            Draft.Result.val r m = Result.val r m /\
            Result.val r m = (Normal v, m)).
  { intros v Hv. rewrite (val_ok _ _ _ Hv). split; [|reflexivity].
    by_draft_class Hv. }
  assert (Herr : forall e, is_err m r e ->
            Draft.Result.err r m = Result.val r m /\
            Result.val r m = (Normal e, m)).
  { intros e He. rewrite (val_err _ _ _ He). split; [|reflexivity].
    by_draft_class He. }
  split; [|split; [|split; [|split; [exact Hval | exact Herr]]]];
    destruct Hr as [x [H|H]]; by_draft_class H.
Qed.

Lemma draft_operations_agree_witness :
  let m := snd (err (VStr "boom") (snd (ok (VNum 2) start))) in
  is_result m (VRef 0) /\ is_result m (VRef 1) /\
  Draft.Result.unwrap (VRef 0) m = Result.unwrap (VRef 0) m /\
  Draft.Result.unwrap (VRef 1) m = Result.unwrap (VRef 1) m /\
  (is_ok m (VRef 0) (VNum 2) /\
   Draft.Result.val (VRef 0) m = Result.val (VRef 0) m) /\
  (is_err m (VRef 1) (VStr "boom") /\
   Draft.Result.err (VRef 1) m = Result.val (VRef 1) m).
Proof.
  intros m.
  assert (Ho : is_ok m (VRef 0) (VNum 2)) by reflexivity.
  assert (He : is_err m (VRef 1) (VStr "boom")) by reflexivity.
  assert (Hr0 : is_result m (VRef 0)) by (exists (VNum 2); left; exact Ho).
  assert (Hr1 : is_result m (VRef 1)) by (exists (VStr "boom"); right; exact He).
  destruct (draft_operations_agree m (VRef 0) Hr0) as (_ & _ & Hu0 & Hval & _).
  destruct (draft_operations_agree m (VRef 1) Hr1) as (_ & _ & Hu1 & _ & Herr).
  split; [exact Hr0|]. split; [exact Hr1|]. split; [exact Hu0|].
  split; [exact Hu1|]. split.
  - split; [exact Ho|]. exact (proj1 (Hval _ Ho)).
  - split; [exact He|]. exact (proj1 (Herr _ He)).
Defined.
